(** * The session registry and query executor of plugin-claudecode

    A shallow embedding of [src/services/claude-code.ts] (class
    [ClaudeCodeService]), of the plugin's [configSchema], [init] and HTTP
    routes ([src/index.ts]) and of the context provider
    ([src/providers/context-provider.ts]).

    JavaScript objects are mutable and shared by reference: the registry
    [this.sessions] maps a session id to a session {e object}, and the same
    object is held by every [executeQuery] call in flight on it.  The model
    therefore keeps an explicit store of session objects and of
    [AbortController]s, both addressed by reference, and the registry holds
    references.  The clock ([Date.now()], [new Date()]) and the random source
    ([Math.random()]) are inputs of the operations that read them; the
    external streaming call [query] is an input too: the messages it emits
    and the way it ends. *)

From Stdlib Require Import String Ascii List ZArith Bool Arith Lia FinFun.
From Stdlib Require Import DecimalString DecimalZ.
Import ListNotations.

Local Open Scope string_scope.
Local Open Scope Z_scope.

(** ** JavaScript values used by the service *)

(** [a || b] on an optional string: [undefined] and [''] are falsy. *)
Definition or_string (a : option string) (b : string) : string :=
  match a with
  | Some (String c s) => String c s
  | Some EmptyString => b
  | None => b
  end.

(** The values a property or a call can hold.  A function body without
    [return] yields [undefined]; a property that arrives in a JSON body or
    is written by a caller can hold any of them.  Numbers are the integers
    and [NaN] (turn counts and millisecond timestamps are integers); the
    contents of objects and arrays are not modelled, they only matter as
    truthy values. *)
Inductive JsValue : Type :=
| JsUndefined
| JsNumber (n : Z)
| JsNull
| JsNaN
| JsBoolean (b : bool)
| JsString (s : string)
| JsObject.

(** [!!v]: [undefined], [null], [0], [NaN], [false] and [''] are falsy. *)
Definition truthy (v : JsValue) : bool :=
  match v with
  | JsUndefined => false
  | JsNumber n => negb (n =? 0)
  | JsNull => false
  | JsNaN => false
  | JsBoolean b => b
  | JsString EmptyString => false
  | JsString (String _ _) => true
  | JsObject => true
  end.

(** [a || b] on an optional property meant to hold a number: an absent
    property reads as [undefined]; a present one is kept when it is
    truthy, whatever it holds. *)
Definition or_number (a : option JsValue) (b : JsValue) : JsValue :=
  match a with
  | Some v => if truthy v then v else b
  | None => b
  end.

(** [a || b] where every present value of [a] is truthy. *)
Definition or_value {A : Type} (a : option A) (b : A) : A :=
  match a with
  | Some v => v
  | None => b
  end.

(** [!!a] on an optional string. *)
Definition truthy_string (a : option string) : bool :=
  match a with
  | Some (String _ _) => true
  | _ => false
  end.

(** ** [Map<string, V>]: keyed table in insertion order *)

Module JsMap.
Section JsMap.
Context {V : Type}.

Definition t : Type := list (string * V).

Definition empty : t := [].

Fixpoint get (k : string) (m : t) : option V :=
  match m with
  | [] => None
  | (k', v) :: m' => if String.eqb k' k then Some v else get k m'
  end.

(** [set] keeps the position of an existing key and appends a new one. *)
Fixpoint set (k : string) (v : V) (m : t) : t :=
  match m with
  | [] => [(k, v)]
  | (k', v') :: m' =>
      if String.eqb k' k then (k, v) :: m' else (k', v') :: set k v m'
  end.

(** [delete] drops the entry stored under [k]. *)
Definition delete (k : string) (m : t) : t :=
  filter (fun e => negb (String.eqb (fst e) k)) m.

Definition keys (m : t) : list string := map fst m.

Definition values (m : t) : list V := map snd m.

Definition size (m : t) : nat := length m.

(** Keys of a table are pairwise distinct. *)
Definition wf (m : t) : Prop := NoDup (keys m).

End JsMap.
Arguments t : clear implicits.
End JsMap.

(** ** Data model *)

(** Objects live in a store and are named by references. *)
Definition ref : Type := nat.

Definition upd {A : Type} (h : ref -> A) (r : ref) (v : A) : ref -> A :=
  fun r' => if Nat.eqb r' r then v else h r'.

(** [status: 'idle' | 'running' | 'completed' | 'error'] *)
Inductive SessionStatus : Type :=
| StIdle
| StRunning
| StCompleted
| StError.

Definition status_eqb (a b : SessionStatus) : bool :=
  match a, b with
  | StIdle, StIdle => true
  | StRunning, StRunning => true
  | StCompleted, StCompleted => true
  | StError, StError => true
  | _, _ => false
  end.

(** [permissionMode] *)
Inductive PermissionMode : Type :=
| PmDefault
| PmAcceptEdits
| PmBypassPermissions
| PmPlan.

(** [outputFormat] *)
Inductive OutputFormat : Type :=
| OfText
| OfJson
| OfStreamJson.

(** A message of the external call: its [type] discriminator and its
    payload, which the service never inspects. *)
Record SDKMessage : Type := {
  msg_type : string;
  msg_payload : string
}.

(** A thrown value. *)
Definition Thrown : Type := string.

(** [interface ClaudeCodeSession] *)
Module Session.
Record t : Type := {
  id : string;
  startedAt : Z;
  lastActivityAt : Z;
  messages : list SDKMessage;
  abortController : ref;
  status : SessionStatus;
  workingDirectory : option string
}.

Definition set_status (v : SessionStatus) (s : t) : t :=
  {| id := id s; startedAt := startedAt s; lastActivityAt := lastActivityAt s;
     messages := messages s; abortController := abortController s;
     status := v; workingDirectory := workingDirectory s |}.

Definition set_lastActivityAt (v : Z) (s : t) : t :=
  {| id := id s; startedAt := startedAt s; lastActivityAt := v;
     messages := messages s; abortController := abortController s;
     status := status s; workingDirectory := workingDirectory s |}.

(** [session.messages.push(message)] *)
Definition push_message (m : SDKMessage) (s : t) : t :=
  {| id := id s; startedAt := startedAt s; lastActivityAt := lastActivityAt s;
     messages := messages s ++ [m]; abortController := abortController s;
     status := status s; workingDirectory := workingDirectory s |}.
End Session.

Definition ClaudeCodeSession : Type := Session.t.

(** [interface QueryOptions]: every field is optional; [None] is an absent
    field.  A [maxTurns] property that is present holds whatever the caller
    put there: the type admits [undefined], and the execute route passes
    the options of a JSON body on as they are. *)
Module Options.
Record t : Type := {
  sessionId : option string;
  workingDirectory : option string;
  maxTurns : option JsValue;
  systemPrompt : option string;
  allowedTools : option (list string);
  disallowedTools : option (list string);
  permissionMode : option PermissionMode;
  outputFormat : option OutputFormat;
  verbose : option bool
}.

(** The object literal [{}]. *)
Definition empty : t :=
  {| sessionId := None; workingDirectory := None; maxTurns := None;
     systemPrompt := None; allowedTools := None; disallowedTools := None;
     permissionMode := None; outputFormat := None; verbose := None |}.

(** One property of [{...a, ...b}]: a property of [b] wins. *)
Definition over {A : Type} (a b : option A) : option A :=
  match b with
  | Some v => Some v
  | None => a
  end.

(** [{...a, ...b}] *)
Definition spread (a b : t) : t :=
  {| sessionId := over (sessionId a) (sessionId b);
     workingDirectory := over (workingDirectory a) (workingDirectory b);
     maxTurns := over (maxTurns a) (maxTurns b);
     systemPrompt := over (systemPrompt a) (systemPrompt b);
     allowedTools := over (allowedTools a) (allowedTools b);
     disallowedTools := over (disallowedTools a) (disallowedTools b);
     permissionMode := over (permissionMode a) (permissionMode b);
     outputFormat := over (outputFormat a) (outputFormat b);
     verbose := over (verbose a) (verbose b) |}.
End Options.

Definition QueryOptions : Type := Options.t.

(** The local [queryOptions] of [executeQuery]:
    [{...this.defaultOptions, ...options, abortController, cwd}]. *)
Record MergedOptions : Type := {
  merged : QueryOptions;
  merged_abortController : ref;
  merged_cwd : option string
}.

(** Modelled from the spec: the configuration record of the external call
    ([@anthropic-ai/claude-code] is not part of the repository).  The spec
    gives the boundary as [invoke(prompt, cancellationHandle, config{maxTurns,
    tool allow/deny lists, permissionMode, systemPrompt, outputFormat})]; the
    working directory is the session's path context passed to the call.
    [None] is a property the caller did not put into the object. *)
Record SDKOptions : Type := {
  sdk_maxTurns : option JsValue;
  sdk_permissionMode : option PermissionMode;
  sdk_allowedTools : option (list string);
  sdk_disallowedTools : option (list string);
  sdk_systemPrompt : option string;
  sdk_outputFormat : option OutputFormat;
  sdk_cwd : option string
}.

(** The argument of one [query({ prompt, abortController, options })]. *)
Record SDKQuery : Type := {
  sdk_prompt : string;
  sdk_abortController : ref;
  sdk_options : SDKOptions
}.

(** ** The service and the object store *)

(** What one synchronous stretch of code reads from its surroundings: the
    clock ([Date.now()], [new Date()]) and the text
    [Math.random().toString(36).substring(2, 9)], at most seven characters
    of [0-9a-z]. *)
Record Env : Type := {
  now : Z;
  random36 : string
}.

(** The fields [sessions] and [defaultOptions] of [ClaudeCodeService],
    together with the store they point into: session objects and
    [AbortController]s by reference ([aborted r] is [signal.aborted] of
    controller [r]), each with the next reference to allocate. *)
Record World : Type := {
  sessions : JsMap.t ref;
  defaultOptions : QueryOptions;
  session_at : ref -> ClaudeCodeSession;
  session_next : ref;
  aborted : ref -> bool;
  controller_next : ref
}.

Definition set_sessions (m : JsMap.t ref) (w : World) : World :=
  {| sessions := m; defaultOptions := defaultOptions w;
     session_at := session_at w; session_next := session_next w;
     aborted := aborted w; controller_next := controller_next w |}.

(** A write through a reference to a session object. *)
Definition modify_session (r : ref) (f : ClaudeCodeSession -> ClaudeCodeSession)
  (w : World) : World :=
  {| sessions := sessions w; defaultOptions := defaultOptions w;
     session_at := upd (session_at w) r (f (session_at w r));
     session_next := session_next w;
     aborted := aborted w; controller_next := controller_next w |}.

(** Allocation of an object literal of type [ClaudeCodeSession]. *)
Definition new_session (s : ClaudeCodeSession) (w : World) : World * ref :=
  ({| sessions := sessions w; defaultOptions := defaultOptions w;
      session_at := upd (session_at w) (session_next w) s;
      session_next := S (session_next w);
      aborted := aborted w; controller_next := controller_next w |},
   session_next w).

(** [new AbortController()] *)
Definition new_AbortController (w : World) : World * ref :=
  ({| sessions := sessions w; defaultOptions := defaultOptions w;
      session_at := session_at w; session_next := session_next w;
      aborted := upd (aborted w) (controller_next w) false;
      controller_next := S (controller_next w) |},
   controller_next w).

(** [controller.abort()] *)
Definition abort (c : ref) (w : World) : World :=
  {| sessions := sessions w; defaultOptions := defaultOptions w;
     session_at := session_at w; session_next := session_next w;
     aborted := upd (aborted w) c true;
     controller_next := controller_next w |}.

(** The value of [runtime.getSetting('CLAUDE_CODE_CONFIG')] when it is an
    object. *)
Record PluginConfig : Type := {
  MAX_TURNS : option JsValue;
  PERMISSION_MODE : option PermissionMode
}.

(** [constructor(runtime)]: an empty registry and the default options
    [{ maxTurns: config.MAX_TURNS || 10,
       permissionMode: config.PERMISSION_MODE || 'acceptEdits' }],
    where [config] is the setting or [{}]. *)
Definition constructor (setting : option PluginConfig) : World :=
  let config :=
    or_value setting {| MAX_TURNS := None; PERMISSION_MODE := None |} in
  {| sessions := JsMap.empty;
     defaultOptions :=
       {| Options.sessionId := None;
          Options.workingDirectory := None;
          Options.maxTurns := Some (or_number (MAX_TURNS config) (JsNumber 10));
          Options.systemPrompt := None;
          Options.allowedTools := None;
          Options.disallowedTools := None;
          Options.permissionMode :=
            Some (or_value (PERMISSION_MODE config) PmAcceptEdits);
          Options.outputFormat := None;
          Options.verbose := None |};
     session_at := fun _ =>
       {| Session.id := ""; Session.startedAt := 0;
          Session.lastActivityAt := 0; Session.messages := [];
          Session.abortController := O; Session.status := StIdle;
          Session.workingDirectory := None |};
     session_next := O;
     aborted := fun _ => false;
     controller_next := O |}.

(** The decimal text of an integer, as a template literal prints it. *)
Definition string_of_Z (z : Z) : string :=
  NilZero.string_of_int (Z.to_int z).

(** [generateSessionId()]:
    [`claude-${Date.now()}-${Math.random().toString(36).substring(2, 9)}`] *)
Definition generateSessionId (env : Env) : string :=
  "claude-" ++ string_of_Z (now env) ++ "-" ++ random36 env.

(** [createSession(sessionId?, workingDirectory?)] *)
Definition createSession (sessionId workingDirectory : option string)
  (env : Env) (w : World) : World * ref :=
  let id := or_string sessionId (generateSessionId env) in
  let '(w1, controller) := new_AbortController w in
  let '(w2, session) :=
    new_session
      {| Session.id := id;
         Session.startedAt := now env;
         Session.lastActivityAt := now env;
         Session.messages := [];
         Session.abortController := controller;
         Session.status := StIdle;
         Session.workingDirectory := workingDirectory |} w1 in
  (set_sessions (JsMap.set id session (sessions w2)) w2, session).

(** [getSession(sessionId)]: the session object registered under the id. *)
Definition getSession (sessionId : string) (w : World) : option ref :=
  JsMap.get sessionId (sessions w).

(** [getActiveSessions()] *)
Definition getActiveSessions (w : World) : list ref :=
  filter
    (fun session =>
       status_eqb (Session.status (session_at w session)) StRunning
       || status_eqb (Session.status (session_at w session)) StIdle)
    (JsMap.values (sessions w)).

(** [stop()]: abort every running session, then clear the registry. *)
Definition stop (w : World) : World :=
  let w1 :=
    fold_left
      (fun (w' : World) (entry : string * ref) =>
         let session := session_at w' (snd entry) in
         if status_eqb (Session.status session) StRunning
         then abort (Session.abortController session) w'
         else w')
      (sessions w) w in
  set_sessions JsMap.empty w1.

(** The test of [cleanupSessions] on one session:
    [age > maxAge && session.status !== 'running'], with
    [age = now - session.lastActivityAt.getTime()]. *)
Definition expired (maxAge now : Z) (session : ClaudeCodeSession) : bool :=
  let age := now - Session.lastActivityAt session in
  (maxAge <? age) && negb (status_eqb (Session.status session) StRunning).

(** The local [sessionsToRemove] of [cleanupSessions] after its first
    loop. *)
Definition sessionsToRemove (maxAge now : Z) (w : World) : list string :=
  map fst
    (filter
       (fun entry : string * ref => expired maxAge now (session_at w (snd entry)))
       (sessions w)).

(** [cleanupSessions(maxAge = 3600000)]; [now] is the reading of
    [Date.now()].  The body has no [return]. *)
Definition cleanupSessions (maxAge : option Z) (now : Z) (w : World)
  : World * JsValue :=
  let maxAge := match maxAge with Some v => v | None => 3600000 end in
  let w' :=
    fold_left
      (fun (w' : World) (id : string) =>
         set_sessions (JsMap.delete id (sessions w')) w')
      (sessionsToRemove maxAge now w) w in
  (w', JsUndefined).

(** The object returned by [getStatus()]. *)
Record ServiceStatus : Type := {
  totalSessions : nat;
  activeSessions : nat;
  idleSessions : nat;
  completedSessions : nat;
  errorSessions : nat;
  apiKeyConfigured : bool
}.

(** [getStatus()]; [apiKey] is [process.env.ANTHROPIC_API_KEY]. *)
Definition getStatus (apiKey : option string) (w : World)
  : World * ServiceStatus :=
  let sessions := map (session_at w) (JsMap.values (sessions w)) in
  let count (st : SessionStatus) :=
    length (filter (fun s => status_eqb (Session.status s) st) sessions) in
  (w,
   {| totalSessions := length sessions;
      activeSessions := count StRunning;
      idleSessions := count StIdle;
      completedSessions := count StCompleted;
      errorSessions := count StError;
      apiKeyConfigured := truthy_string apiKey |}).

(** ** [executeQuery] *)

(** The locals of one [executeQuery] invocation that outlive its first
    synchronous stretch: the id, the session object it works on, the
    [messages] array it will return, the merged [queryOptions] and the
    argument handed to the external [query]. *)
Record Call : Type := {
  call_sessionId : string;
  call_session : ref;
  call_messages : list SDKMessage;
  call_queryOptions : MergedOptions;
  call_query : SDKQuery
}.

Definition set_call_messages (ms : list SDKMessage) (c : Call) : Call :=
  {| call_sessionId := call_sessionId c; call_session := call_session c;
     call_messages := ms; call_queryOptions := call_queryOptions c;
     call_query := call_query c |}.

(** From the entry of [executeQuery] to the call of [query]: resolve or
    create the session, mark it running, stamp it, merge the options and
    build the argument of the external call. *)
Definition executeQuery_start (prompt : string) (options : QueryOptions)
  (env : Env) (w : World) : World * Call :=
  let sessionId :=
    or_string (Options.sessionId options) (generateSessionId env) in
  let '(w1, session) :=
    match JsMap.get sessionId (sessions w) with
    | Some session => (w, session)
    | None =>
        let '(w', session) :=
          createSession (Some sessionId) (Options.workingDirectory options)
            env w in
        (set_sessions (JsMap.set sessionId session (sessions w')) w', session)
    end in
  let w2 := modify_session session (Session.set_status StRunning) w1 in
  let w3 := modify_session session (Session.set_lastActivityAt (now env)) w2 in
  let queryOptions :=
    {| merged := Options.spread (defaultOptions w3) options;
       merged_abortController :=
         Session.abortController (session_at w3 session);
       merged_cwd := Session.workingDirectory (session_at w3 session) |} in
  (w3,
   {| call_sessionId := sessionId;
      call_session := session;
      call_messages := [];
      call_queryOptions := queryOptions;
      call_query :=
        {| sdk_prompt := prompt;
           sdk_abortController := merged_abortController queryOptions;
           sdk_options :=
             {| sdk_maxTurns :=
                  Some (or_number (Options.maxTurns (merged queryOptions))
                          (JsNumber 10));
                sdk_permissionMode := None;
                sdk_allowedTools := None;
                sdk_disallowedTools := None;
                sdk_systemPrompt := None;
                sdk_outputFormat := None;
                sdk_cwd := None |} |} |}).

(** One turn of the [for await] loop: the message goes to the local array
    and to the transcript of the session object. *)
Definition executeQuery_message (message : SDKMessage) (st : World * Call)
  : World * Call :=
  let '(w, c) := st in
  (modify_session (call_session c) (Session.push_message message) w,
   set_call_messages (call_messages c ++ [message]) c).

(** The stream ended: [session.status = 'completed'; return messages]. *)
Definition executeQuery_return (st : World * Call)
  : World * list SDKMessage :=
  let '(w, c) := st in
  (modify_session (call_session c) (Session.set_status StCompleted) w,
   call_messages c).

(** The [catch] block: [session.status = 'error'; throw error]. *)
Definition executeQuery_catch (err : Thrown) (st : World * Call)
  : World * Thrown :=
  let '(w, c) := st in
  (modify_session (call_session c) (Session.set_status StError) w, err).

(** How an invocation ends for its caller. *)
Inductive Outcome : Type :=
| Returned (messages : list SDKMessage)
| Threw (err : Thrown).

(** What the external call does once invoked: the messages it emits, in
    order, and whether it then ends ([None]) or throws ([Some err]). *)
Record Stream : Type := {
  emitted : list SDKMessage;
  ending : option Thrown
}.

(** The loop over the emitted messages. *)
Definition executeQuery_loop (ms : list SDKMessage) (st : World * Call)
  : World * Call :=
  fold_left (fun st message => executeQuery_message message st) ms st.

(** [executeQuery(prompt, options)] with nothing else of the service
    running between its steps. *)
Definition executeQuery (prompt : string) (options : QueryOptions)
  (env : Env) (stream : Stream) (w : World) : World * Outcome :=
  let st :=
    executeQuery_loop (emitted stream)
      (executeQuery_start prompt options env w) in
  match ending stream with
  | None =>
      let '(w', messages) := executeQuery_return st in
      (w', Returned messages)
  | Some err =>
      let '(w', err') := executeQuery_catch err st in
      (w', Threw err')
  end.

(** ** The clock, reading by reading

    [Env] gives one synchronous stretch a single time.  The code reads the
    clock anew at every [Date.now()] and [new Date()], and nothing makes
    two readings of a stretch equal: [Readings] names them place by
    place, and the two operations that read the clock more than once are
    given again over it.  [createSession] and [executeQuery_start] are
    the case of a clock that stands still during the stretch
    ([steady]). *)

(** [id_now] is [Date.now()] and [id_random36] the random text in
    [generateSessionId]; [startedAt_now] and [lastActivityAt_now] are the
    two [new Date()] of the object literal in [createSession]; [stamp_now]
    is the [new Date()] of [session.lastActivityAt = new Date()] in
    [executeQuery]. *)
Record Readings : Type := {
  id_now : Z;
  id_random36 : string;
  startedAt_now : Z;
  lastActivityAt_now : Z;
  stamp_now : Z
}.

(** What [generateSessionId] reads. *)
Definition id_env (rd : Readings) : Env :=
  {| now := id_now rd; random36 := id_random36 rd |}.

(** The clock stands still. *)
Definition steady (env : Env) : Readings :=
  {| id_now := now env; id_random36 := random36 env;
     startedAt_now := now env; lastActivityAt_now := now env;
     stamp_now := now env |}.

(** [createSession(sessionId?, workingDirectory?)] *)
Definition createSession_at (sessionId workingDirectory : option string)
  (rd : Readings) (w : World) : World * ref :=
  let id := or_string sessionId (generateSessionId (id_env rd)) in
  let '(w1, controller) := new_AbortController w in
  let '(w2, session) :=
    new_session
      {| Session.id := id;
         Session.startedAt := startedAt_now rd;
         Session.lastActivityAt := lastActivityAt_now rd;
         Session.messages := [];
         Session.abortController := controller;
         Session.status := StIdle;
         Session.workingDirectory := workingDirectory |} w1 in
  (set_sessions (JsMap.set id session (sessions w2)) w2, session).

(** [executeQuery] from its entry to the call of [query]. *)
Definition executeQuery_start_at (prompt : string) (options : QueryOptions)
  (rd : Readings) (w : World) : World * Call :=
  let sessionId :=
    or_string (Options.sessionId options) (generateSessionId (id_env rd)) in
  let '(w1, session) :=
    match JsMap.get sessionId (sessions w) with
    | Some session => (w, session)
    | None =>
        let '(w', session) :=
          createSession_at (Some sessionId) (Options.workingDirectory options)
            rd w in
        (set_sessions (JsMap.set sessionId session (sessions w')) w', session)
    end in
  let w2 := modify_session session (Session.set_status StRunning) w1 in
  let w3 :=
    modify_session session (Session.set_lastActivityAt (stamp_now rd)) w2 in
  let queryOptions :=
    {| merged := Options.spread (defaultOptions w3) options;
       merged_abortController :=
         Session.abortController (session_at w3 session);
       merged_cwd := Session.workingDirectory (session_at w3 session) |} in
  (w3,
   {| call_sessionId := sessionId;
      call_session := session;
      call_messages := [];
      call_queryOptions := queryOptions;
      call_query :=
        {| sdk_prompt := prompt;
           sdk_abortController := merged_abortController queryOptions;
           sdk_options :=
             {| sdk_maxTurns :=
                  Some (or_number (Options.maxTurns (merged queryOptions))
                          (JsNumber 10));
                sdk_permissionMode := None;
                sdk_allowedTools := None;
                sdk_disallowedTools := None;
                sdk_systemPrompt := None;
                sdk_outputFormat := None;
                sdk_cwd := None |} |} |}).

(** ** A prompt that is not a string

    [executeQuery] is typed for a string, but the execute route hands it
    whatever the JSON body holds.  With any other truthy value the stretch
    before [try] runs as always (it does not read [prompt]: the session is
    resolved or created, marked running and stamped); in the [try] block
    [prompt.substring] is not a function, so the call throws before
    [query] is invoked, and the [catch] block marks the session and
    re-throws. *)
Definition executeQuery_not_a_string (options : QueryOptions) (env : Env)
  (w : World) : World * Outcome :=
  let entered := executeQuery_start "" options env w in
  let '(w', err) :=
    executeQuery_catch "TypeError: prompt.substring is not a function"
      entered in
  (w', Threw err).

(** ** Plugin configuration *)

(** The [MAX_TURNS] entry of [configSchema]:
    [z.number().optional().default(10)
      .transform((val) => Math.max(1, Math.min(val, 50)))]. *)
Definition configSchema_MAX_TURNS (input : option Z) : Z :=
  let val := match input with Some v => v | None => 10 end in
  Z.max 1 (Z.min val 50).

(** ** The service with calls in flight

    [executeQuery] is asynchronous: between two messages of its stream any
    other method of the service may run, and so may further [executeQuery]
    calls.  A [System] is the world together with the invocations started
    so far; an [Event] is one synchronous stretch of service code. *)

Inductive CallState : Type :=
| InFlight (c : Call)
| Finished (o : Outcome).

Record System : Type := {
  world : World;
  calls : list CallState
}.

Inductive Event : Type :=
| EvCreateSession (sessionId workingDirectory : option string) (env : Env)
| EvExecuteQuery (prompt : string) (options : QueryOptions) (env : Env)
| EvMessage (call : nat) (message : SDKMessage)
| EvEnd (call : nat)
| EvThrow (call : nat) (err : Thrown)
| EvCleanupSessions (maxAge : option Z) (now : Z)
| EvGetStatus (apiKey : option string)
| EvStop.

(** Replace the state of call number [i]. *)
Fixpoint set_call (i : nat) (cs : CallState) (l : list CallState)
  : list CallState :=
  match l, i with
  | [], _ => []
  | _ :: l', O => cs :: l'
  | x :: l', S i' => x :: set_call i' cs l'
  end.

(** The call numbered [i], when it is still in flight. *)
Definition in_flight (i : nat) (sys : System) : option Call :=
  match nth_error (calls sys) i with
  | Some (InFlight c) => Some c
  | _ => None
  end.

(** One event; [None] when it names a call that is not in flight. *)
Definition step (ev : Event) (sys : System) : option System :=
  match ev with
  | EvCreateSession sessionId workingDirectory env =>
      Some {| world := fst (createSession sessionId workingDirectory env
                              (world sys));
              calls := calls sys |}
  | EvExecuteQuery prompt options env =>
      let '(w, c) := executeQuery_start prompt options env (world sys) in
      Some {| world := w; calls := calls sys ++ [InFlight c] |}
  | EvMessage i message =>
      match in_flight i sys with
      | Some c =>
          let '(w, c') := executeQuery_message message (world sys, c) in
          Some {| world := w; calls := set_call i (InFlight c') (calls sys) |}
      | None => None
      end
  | EvEnd i =>
      match in_flight i sys with
      | Some c =>
          let '(w, messages) := executeQuery_return (world sys, c) in
          Some {| world := w;
                  calls := set_call i (Finished (Returned messages))
                             (calls sys) |}
      | None => None
      end
  | EvThrow i err =>
      match in_flight i sys with
      | Some c =>
          let '(w, err') := executeQuery_catch err (world sys, c) in
          Some {| world := w;
                  calls := set_call i (Finished (Threw err')) (calls sys) |}
      | None => None
      end
  | EvCleanupSessions maxAge now =>
      Some {| world := fst (cleanupSessions maxAge now (world sys));
              calls := calls sys |}
  | EvGetStatus apiKey =>
      Some {| world := fst (getStatus apiKey (world sys));
              calls := calls sys |}
  | EvStop =>
      Some {| world := stop (world sys); calls := calls sys |}
  end.

(** A run of events from a state. *)
Fixpoint run (evs : list Event) (sys : System) : option System :=
  match evs with
  | [] => Some sys
  | ev :: evs' =>
      match step ev sys with
      | Some sys' => run evs' sys'
      | None => None
      end
  end.

(** The service right after construction. *)
Definition boot (setting : option PluginConfig) : System :=
  {| world := constructor setting; calls := [] |}.

(** The states the service can be in. *)
Inductive reachable : System -> Prop :=
| reachable_boot : forall setting, reachable (boot setting)
| reachable_step : forall ev sys sys',
    reachable sys -> step ev sys = Some sys' -> reachable sys'.

(** ** Service start-up and shutdown *)

(** [static async start(runtime)]: the service is constructed first, then
    the credential [process.env.ANTHROPIC_API_KEY] is tested. *)
Definition ClaudeCodeService_start (setting : option PluginConfig)
  (apiKey : option string) : World + Thrown :=
  let service := constructor setting in
  if negb (truthy_string apiKey)
  then inr "ANTHROPIC_API_KEY environment variable is not set"
  else inl service.

(** ** Validation of the plugin configuration *)

(** A JavaScript number as the plugin's [config] can hold it in
    [MAX_TURNS]: [parseInt] gives an integer or [NaN]. *)
Inductive ParsedInt : Type :=
| NaN
| Num (n : Z).

(** The argument of [init]: the three settings [configSchema] reads, each
    possibly [undefined]. *)
Record RawConfig : Type := {
  raw_ANTHROPIC_API_KEY : option string;
  raw_MAX_TURNS : option ParsedInt;
  raw_PERMISSION_MODE : option string
}.

(** What [configSchema.parseAsync] resolves to. *)
Record ValidatedConfig : Type := {
  valid_ANTHROPIC_API_KEY : string;
  valid_MAX_TURNS : Z;
  valid_PERMISSION_MODE : PermissionMode
}.

(** What a setting can be rejected for. *)
Inductive ConfigIssue : Type :=
| ApiKeyRequired
| ApiKeyEmpty
| MaxTurnsNotANumber
| PermissionModeInvalid.

(** [z.string().min(1, ...)] on the credential; the transform behind it
    returns a non-empty string as it is. *)
Definition check_ANTHROPIC_API_KEY (input : option string)
  : string + ConfigIssue :=
  match input with
  | None => inr ApiKeyRequired
  | Some EmptyString => inr ApiKeyEmpty
  | Some (String c s) => inl (String c s)
  end.

(** [z.number().optional().default(10).transform(clamp)]: [z.number()]
    rejects [NaN]. *)
Definition check_MAX_TURNS (input : option ParsedInt) : Z + ConfigIssue :=
  match input with
  | None => inl (configSchema_MAX_TURNS None)
  | Some (Num n) => inl (configSchema_MAX_TURNS (Some n))
  | Some NaN => inr MaxTurnsNotANumber
  end.

(** [z.enum(['default', 'acceptEdits', 'bypassPermissions', 'plan'])
      .optional().default('acceptEdits')] *)
Definition check_PERMISSION_MODE (input : option string)
  : PermissionMode + ConfigIssue :=
  match input with
  | None => inl PmAcceptEdits
  | Some s =>
      if String.eqb s "default" then inl PmDefault
      else if String.eqb s "acceptEdits" then inl PmAcceptEdits
      else if String.eqb s "bypassPermissions" then inl PmBypassPermissions
      else if String.eqb s "plan" then inl PmPlan
      else inr PermissionModeInvalid
  end.

Definition issue_of {A : Type} (r : A + ConfigIssue) : list ConfigIssue :=
  match r with
  | inl _ => []
  | inr issue => [issue]
  end.

(** [configSchema.parseAsync(config)]: every setting is checked and the
    issues of all of them are reported together, in the order of the
    schema. *)
Definition configSchema_parse (config : RawConfig)
  : ValidatedConfig + list ConfigIssue :=
  match check_ANTHROPIC_API_KEY (raw_ANTHROPIC_API_KEY config),
        check_MAX_TURNS (raw_MAX_TURNS config),
        check_PERMISSION_MODE (raw_PERMISSION_MODE config) with
  | inl key, inl turns, inl mode =>
      inl {| valid_ANTHROPIC_API_KEY := key;
             valid_MAX_TURNS := turns;
             valid_PERMISSION_MODE := mode |}
  | key, turns, mode =>
      inr (issue_of key ++ issue_of turns ++ issue_of mode)%list
  end.

(** How [init] fails. *)
Inductive InitError : Type :=
| InvalidConfiguration (issues : list ConfigIssue)
| SdkImportFailed.

(** [init(config)]: validate the configuration, import the SDK
    ([sdkImports] tells whether the import succeeds), then store the
    credential in [process.env.ANTHROPIC_API_KEY].  The result is the
    validated configuration kept in [this.config] and the new value of the
    environment variable. *)
Definition init (config : RawConfig) (sdkImports : bool)
  : (ValidatedConfig * option string) + InitError :=
  match configSchema_parse config with
  | inr issues => inr (InvalidConfiguration issues)
  | inl validatedConfig =>
      if sdkImports
      then inl (validatedConfig,
                Some (valid_ANTHROPIC_API_KEY validatedConfig))
      else inr SdkImportFailed
  end.

(** ** HTTP routes *)

(** The JSON bodies the two routes send. *)
Inductive ResponseBody : Type :=
| BodyError (message : string)
| BodyActive (report : ServiceStatus)
| BodySuccess (result : list SDKMessage).

(** A response: the status code ([res.json] alone leaves it at 200) and
    the body. *)
Record Response : Type := {
  res_code : nat;
  res_body : ResponseBody
}.

(** [req.body] of the execute route once destructured:
    [const { prompt, options } = req.body].  The body is parsed JSON and
    the handler checks no types: [prompt] is any value, or absent.  A body
    that is a number, a string, a boolean or an array destructures to two
    absent properties. *)
Record ExecuteBody : Type := {
  body_prompt : option JsValue;
  body_options : option QueryOptions
}.

(** [!prompt] is false. *)
Definition prompt_given (b : ExecuteBody) : bool :=
  match body_prompt b with
  | Some v => truthy v
  | None => false
  end.

(** The handler of [GET /claude-code/status].  [runtime] is [req.runtime]
    ([None] when the request carries none, which makes
    [runtime.getService] throw) and holds the service when it is
    registered. *)
Definition route_status (runtime : option (option World))
  (apiKey : option string) : option World * Response :=
  match runtime with
  | None =>
      (None,
       {| res_code := 500;
          res_body := BodyError "Failed to get service status" |})
  | Some None =>
      (None,
       {| res_code := 503;
          res_body := BodyError "Claude Code service not available" |})
  | Some (Some w) =>
      let '(w', status) := getStatus apiKey w in
      (Some w', {| res_code := 200; res_body := BodyActive status |})
  end.

(** The handler of [POST /claude-code/execute]; [body] is [req.body]
    ([None] when absent or [null], which makes the destructuring throw). *)
Definition route_execute (runtime : option (option World))
  (body : option ExecuteBody) (env : Env) (stream : Stream)
  : option World * Response :=
  match runtime with
  | None =>
      (None,
       {| res_code := 500; res_body := BodyError "Failed to execute query" |})
  | Some None =>
      (None,
       {| res_code := 503;
          res_body := BodyError "Claude Code service not available" |})
  | Some (Some w) =>
      match body with
      | None =>
          (Some w,
           {| res_code := 500;
              res_body := BodyError "Failed to execute query" |})
      | Some b =>
          if negb (prompt_given b)
          then
            (Some w,
             {| res_code := 400; res_body := BodyError "Prompt is required" |})
          else
            let options := or_value (body_options b) Options.empty in
            let outcome :=
              match body_prompt b with
              | Some (JsString prompt) =>
                  executeQuery prompt options env stream w
              | _ => executeQuery_not_a_string options env w
              end in
            match outcome with
            | (w', Returned result) =>
                (Some w',
                 {| res_code := 200; res_body := BodySuccess result |})
            | (w', Threw _) =>
                (Some w',
                 {| res_code := 500;
                    res_body := BodyError "Failed to execute query" |})
            end
      end
  end.

(** ** The context provider *)








(** * Vocabulary of the statements *)

(** The transcript stored under an id before a call; empty when the id is
    not registered. *)
Definition transcript (sessionId : string) (w : World) : list SDKMessage :=
  match getSession sessionId w with
  | Some session => Session.messages (session_at w session)
  | None => []
  end.

(** The number of registry entries whose session object is in status
    [st]. *)
Fixpoint count_in_status (st : SessionStatus)
  (store : ref -> ClaudeCodeSession) (m : JsMap.t ref) : nat :=
  match m with
  | [] => O
  | (_, session) :: m' =>
      if status_eqb (Session.status (store session)) st
      then S (count_in_status st store m')
      else count_in_status st store m'
  end.

Definition registered_in_status (st : SessionStatus) (w : World) : nat :=
  count_in_status st (session_at w) (sessions w).



(** The id an invocation works on. *)
Definition resolved_id (options : QueryOptions) (env : Env) : string :=
  or_string (Options.sessionId options) (generateSessionId env).

(** The [maxTurns] the external call receives. *)
Definition used_maxTurns (prompt : string) (options : QueryOptions)
  (env : Env) (w : World) : option JsValue :=
  sdk_maxTurns
    (sdk_options (call_query (snd (executeQuery_start prompt options env w)))).

(** Two idle sessions and one running session, all last active at time 0;
    [cleanupSessions(3600000)] runs two hours later. *)
Definition three_old_sessions : World :=
  let env := {| now := 0; random36 := "abc" |} in
  let w1 := fst (createSession (Some "a") None env (constructor None)) in
  let w2 := fst (createSession (Some "b") None env w1) in
  fst (executeQuery_start "long task"
         {| Options.sessionId := Some "c"; Options.workingDirectory := None;
            Options.maxTurns := None; Options.systemPrompt := None;
            Options.allowedTools := None; Options.disallowedTools := None;
            Options.permissionMode := None; Options.outputFormat := None;
            Options.verbose := None |} env w2).

(** No character of the text is a minus sign. *)
Fixpoint no_dash (s : string) : bool :=
  match s with
  | EmptyString => true
  | String c s' => negb (Ascii.eqb c "-") && no_dash s'
  end.

(** A call that creates a session without an explicit id:
    [createSession(undefined, workingDirectory)] or [executeQuery] with
    options that carry no [sessionId]. *)
Inductive Creation : Type :=
| ByCreateSession (workingDirectory : option string) (env : Env)
| ByExecuteQuery (prompt : string) (options : QueryOptions) (env : Env).

Definition creation_env (c : Creation) : Env :=
  match c with
  | ByCreateSession _ env => env
  | ByExecuteQuery _ _ env => env
  end.

Definition no_explicit_id (c : Creation) : Prop :=
  match c with
  | ByCreateSession _ _ => True
  | ByExecuteQuery _ options _ => Options.sessionId options = None
  end.

(** What a creating call reads from the clock and the random source. *)
Definition draw (c : Creation) : Z * string :=
  (now (creation_env c), random36 (creation_env c)).

(** One creating call, and the id of the session it made or worked on. *)
Definition create_one (c : Creation) (w : World) : World * string :=
  match c with
  | ByCreateSession workingDirectory env =>
      let '(w', session) := createSession None workingDirectory env w in
      (w', Session.id (session_at w' session))
  | ByExecuteQuery prompt options env =>
      let '(w', call) := executeQuery_start prompt options env w in
      (w', call_sessionId call)
  end.

(** Creating calls one after the other, and their ids in call order. *)
Fixpoint create_all (cs : list Creation) (w : World) : World * list string :=
  match cs with
  | [] => (w, [])
  | c :: cs' =>
      let '(w1, id) := create_one c w in
      let '(w2, ids) := create_all cs' w1 in
      (w2, id :: ids)
  end.

(** Every registered session is an allocated object whose cancellation
    handle has not fired. *)
Definition registered_live (w : World) : Prop :=
  forall k r, In (k, r) (sessions w) ->
    (r < session_next w)%nat /\
    aborted w (Session.abortController (session_at w r)) = false.

(** The handle of every allocated session is an allocated controller. *)
Definition controllers_allocated (w : World) : Prop :=
  forall r, (r < session_next w)%nat ->
    (Session.abortController (session_at w r) < controller_next w)%nat.

Record Inv (w : World) : Prop := {
  inv_wf : JsMap.wf (sessions w);
  inv_live : registered_live w;
  inv_alloc : controllers_allocated w
}.

(** A call on session ["s"] has received a message when [stop()] runs. *)
Definition stop_while_running : list Event :=
  [EvExecuteQuery "fix the bug"
     {| Options.sessionId := Some "s"; Options.workingDirectory := None;
        Options.maxTurns := None; Options.systemPrompt := None;
        Options.allowedTools := None; Options.disallowedTools := None;
        Options.permissionMode := None; Options.outputFormat := None;
        Options.verbose := None |}
     {| now := 1000; random36 := "abc" |};
   EvMessage 0 {| msg_type := "assistant"; msg_payload := "partial" |};
   EvStop].

Definition stopped_while_running : System :=
  match run stop_while_running (boot None) with
  | Some sys => sys
  | None => boot None
  end.



(** A session object at a later time: the same id, start time, working
    directory and cancellation handle, and a transcript that has only been
    extended. *)
Definition grown (s s' : ClaudeCodeSession) : Prop :=
  Session.id s' = Session.id s /\
  Session.startedAt s' = Session.startedAt s /\
  Session.workingDirectory s' = Session.workingDirectory s /\
  Session.abortController s' = Session.abortController s /\
  exists suffix, Session.messages s' = (Session.messages s ++ suffix)%list.

(** Every registered session is filed under its own id. *)
Definition filed_under_id (w : World) : Prop :=
  forall k r, In (k, r) (sessions w) -> Session.id (session_at w r) = k.

(** No two allocated sessions share a cancellation handle. *)
Definition own_controllers (w : World) : Prop :=
  forall r1 r2,
    (r1 < session_next w)%nat -> (r2 < session_next w)%nat ->
    Session.abortController (session_at w r1)
    = Session.abortController (session_at w r2) ->
    r1 = r2.

(** The events that take sessions out of the registry. *)
Definition removes (ev : Event) : bool :=
  match ev with
  | EvCleanupSessions _ _ => true
  | EvStop => true
  | _ => false
  end.

(** Two sessions, the first idle and the second with a call in flight that
    has received one message. *)
Definition idle_and_running : list Event :=
  [EvCreateSession (Some "idle-one") (Some "/repo")
     {| now := 1000; random36 := "abc" |};
   EvExecuteQuery "fix the bug"
     {| Options.sessionId := Some "busy-one"; Options.workingDirectory := None;
        Options.maxTurns := None; Options.systemPrompt := None;
        Options.allowedTools := None; Options.disallowedTools := None;
        Options.permissionMode := None; Options.outputFormat := None;
        Options.verbose := None |}
     {| now := 2000; random36 := "def" |};
   EvMessage 0 {| msg_type := "assistant"; msg_payload := "partial" |}].

Definition idle_and_running_system : System :=
  match run idle_and_running (boot None) with
  | Some sys => sys
  | None => boot None
  end.

(** After [idle_and_running]: one more message, shutdown, the stream of
    the call throws, and a clean-up. *)
Definition shutdown_while_running : list Event :=
  [EvMessage 0 {| msg_type := "assistant"; msg_payload := "more" |};
   EvStop;
   EvThrow 0 "AbortError";
   EvCleanupSessions None 99999999].

Definition after_shutdown : System :=
  match run shutdown_while_running idle_and_running_system with
  | Some sys => sys
  | None => boot None
  end.

(** After [idle_and_running], the stream of the call throws. *)
Definition after_throw : System :=
  match step (EvThrow 0 "boom") idle_and_running_system with
  | Some sys => sys
  | None => boot None
  end.

(** The name of a permission mode in the configuration. *)
Definition permissionMode_text (mode : PermissionMode) : string :=
  match mode with
  | PmDefault => "default"
  | PmAcceptEdits => "acceptEdits"
  | PmBypassPermissions => "bypassPermissions"
  | PmPlan => "plan"
  end.

(** The messages the events deliver to call number [i], in order. *)
Fixpoint delivered (i : nat) (evs : list Event) : list SDKMessage :=
  match evs with
  | [] => []
  | EvMessage j message :: evs' =>
      if Nat.eqb j i then message :: delivered i evs' else delivered i evs'
  | _ :: evs' => delivered i evs'
  end.

(** What an invocation has collected so far, or returned; nothing is
    said about one that threw. *)
Definition collected (cs : CallState) (ms : list SDKMessage) : Prop :=
  match cs with
  | InFlight c => call_messages c = ms
  | Finished (Returned result) => result = ms
  | Finished (Threw _) => True
  end.

(** Two calls on the same session, their messages interleaved; the first
    call ends, the second is still running. *)
Definition two_calls_one_session : list Event :=
  let options :=
    {| Options.sessionId := Some "shared"; Options.workingDirectory := None;
       Options.maxTurns := None; Options.systemPrompt := None;
       Options.allowedTools := None; Options.disallowedTools := None;
       Options.permissionMode := None; Options.outputFormat := None;
       Options.verbose := None |} in
  [EvExecuteQuery "first" options {| now := 1000; random36 := "abc" |};
   EvExecuteQuery "second" options {| now := 1001; random36 := "def" |};
   EvMessage 0 {| msg_type := "assistant"; msg_payload := "a1" |};
   EvMessage 1 {| msg_type := "assistant"; msg_payload := "b1" |};
   EvMessage 0 {| msg_type := "assistant"; msg_payload := "a2" |};
   EvEnd 0].

Definition two_calls_one_session_system : System :=
  match run two_calls_one_session (boot None) with
  | Some sys => sys
  | None => boot None
  end.

(** * Properties *)

(** ** The keyed table *)

Section JsMapFacts.
Context {V : Type}.
Implicit Types (m : JsMap.t V) (k : string) (v : V).

Lemma get_set_same k v m : JsMap.get k (JsMap.set k v m) = Some v.
Proof.
  induction m as [|[k' v'] m IH]; simpl.
  - now rewrite String.eqb_refl.
  - destruct (String.eqb k' k) eqn:E; simpl.
    + now rewrite String.eqb_refl.
    + now rewrite E.
Qed.

Lemma get_set_other k k' v m :
  k' <> k -> JsMap.get k' (JsMap.set k v m) = JsMap.get k' m.
Proof.
  intros Hne.
  induction m as [|[k0 v0] m IH]; simpl.
  - destruct (String.eqb_spec k k'); congruence.
  - destruct (String.eqb_spec k0 k) as [->|Hk]; simpl.
    + destruct (String.eqb_spec k k'); congruence.
    + now rewrite IH.
Qed.

Lemma get_delete k k' m :
  JsMap.get k' (JsMap.delete k m)
  = if String.eqb k' k then None else JsMap.get k' m.
Proof.
  unfold JsMap.delete.
  induction m as [|[k0 v0] m IH]; simpl.
  - now destruct (String.eqb k' k).
  - destruct (String.eqb_spec k0 k) as [->|Hk]; simpl.
    + rewrite IH. destruct (String.eqb_spec k' k) as [->|Hk'].
      * reflexivity.
      * destruct (String.eqb_spec k k'); congruence.
    + rewrite IH. destruct (String.eqb_spec k0 k') as [->|Hk0].
      * destruct (String.eqb_spec k' k); congruence.
      * reflexivity.
Qed.

Lemma get_in k v m : JsMap.get k m = Some v -> In (k, v) m.
Proof.
  induction m as [|[k0 v0] m IH]; simpl; [discriminate|].
  destruct (String.eqb_spec k0 k) as [->|Hk].
  - intros [= ->]. now left.
  - intros H. right. auto.
Qed.

Lemma get_none_keys k m : JsMap.get k m = None <-> ~ In k (JsMap.keys m).
Proof.
  induction m as [|[k0 v0] m IH]; simpl.
  - tauto.
  - destruct (String.eqb_spec k0 k) as [->|Hk].
    + split; [discriminate|]. intros H. exfalso. apply H. now left.
    + rewrite IH. tauto.
Qed.

Lemma keys_set k v m :
  JsMap.keys (JsMap.set k v m)
  = match JsMap.get k m with
    | Some _ => JsMap.keys m
    | None => (JsMap.keys m ++ [k])%list
    end.
Proof.
  induction m as [|[k0 v0] m IH]; simpl.
  - reflexivity.
  - destruct (String.eqb_spec k0 k) as [->|Hk]; simpl.
    + reflexivity.
    + rewrite IH. now destruct (JsMap.get k m).
Qed.

Lemma wf_set k v m : JsMap.wf m -> JsMap.wf (JsMap.set k v m).
Proof.
  unfold JsMap.wf. intros Hwf. rewrite keys_set.
  destruct (JsMap.get k m) eqn:E; [assumption|].
  apply get_none_keys in E.
  apply NoDup_app; [assumption | repeat constructor; simpl; tauto |].
  intros x Hx [<-|[]]. contradiction.
Qed.

End JsMapFacts.

(** ** The store *)

Lemma upd_same {A : Type} (h : ref -> A) r v : upd h r v r = v.
Proof. unfold upd. now rewrite Nat.eqb_refl. Qed.

Lemma upd_other {A : Type} (h : ref -> A) r r' v :
  r' <> r -> upd h r v r' = h r'.
Proof.
  unfold upd. intros H. destruct (Nat.eqb_spec r' r); congruence.
Qed.

Lemma status_eqb_spec a b : reflect (a = b) (status_eqb a b).
Proof. destruct a, b; simpl; constructor; congruence. Qed.

(** ** Session ids *)

Arguments string_of_Z : simpl never.
Arguments generateSessionId : simpl never.

(** ** One invocation of [executeQuery], step by step *)

(** Both ways [executeQuery] comes to its session: found in the registry,
    or created and registered. *)
Ltac start_cases w :=
  unfold executeQuery_start, resolved_id, transcript, getSession;
  destruct (JsMap.get _ (sessions w)) eqn:?; cbn;
  rewrite ?upd_same.

Section Invocation.
Variables (prompt : string) (options : QueryOptions) (env : Env) (w : World).

Let st0 : World * Call := executeQuery_start prompt options env w.

Lemma start_sessionId : call_sessionId (snd st0) = resolved_id options env.
Proof. subst st0. start_cases w; reflexivity. Qed.

Lemma start_messages : call_messages (snd st0) = [].
Proof. subst st0. start_cases w; reflexivity. Qed.

Lemma start_registered :
  getSession (resolved_id options env) (fst st0) = Some (call_session (snd st0)).
Proof. subst st0. start_cases w; [assumption | apply get_set_same]. Qed.

Lemma start_running :
  Session.status (session_at (fst st0) (call_session (snd st0))) = StRunning.
Proof. subst st0. start_cases w; reflexivity. Qed.

Lemma start_transcript :
  Session.messages (session_at (fst st0) (call_session (snd st0)))
  = transcript (resolved_id options env) w.
Proof. subst st0. start_cases w; reflexivity. Qed.

Lemma start_lastActivityAt :
  Session.lastActivityAt (session_at (fst st0) (call_session (snd st0)))
  = now env.
Proof. subst st0. start_cases w; reflexivity. Qed.

(** The argument of the external call, whatever the session. *)
Lemma start_query :
  call_query (snd st0)
  = {| sdk_prompt := prompt;
       sdk_abortController :=
         Session.abortController (session_at (fst st0) (call_session (snd st0)));
       sdk_options :=
         {| sdk_maxTurns :=
              Some (or_number
                      (Options.maxTurns
                         (Options.spread (defaultOptions w) options))
                      (JsNumber 10));
            sdk_permissionMode := None;
            sdk_allowedTools := None;
            sdk_disallowedTools := None;
            sdk_systemPrompt := None;
            sdk_outputFormat := None;
            sdk_cwd := None |} |}.
Proof. subst st0. start_cases w; reflexivity. Qed.

Lemma start_queryOptions :
  merged (call_queryOptions (snd st0))
  = Options.spread (defaultOptions w) options.
Proof. subst st0. start_cases w; reflexivity. Qed.

End Invocation.

Lemma loop_cons m ms st :
  executeQuery_loop (m :: ms) st
  = executeQuery_loop ms (executeQuery_message m st).
Proof. reflexivity. Qed.

Lemma loop_sessions ms : forall st,
  sessions (fst (executeQuery_loop ms st)) = sessions (fst st).
Proof.
  induction ms as [|m ms IH]; intros [w c]; [reflexivity|].
  now rewrite loop_cons, IH.
Qed.

Lemma loop_session ms : forall st,
  call_session (snd (executeQuery_loop ms st)) = call_session (snd st).
Proof.
  induction ms as [|m ms IH]; intros [w c]; [reflexivity|].
  now rewrite loop_cons, IH.
Qed.

Lemma loop_messages ms : forall st,
  call_messages (snd (executeQuery_loop ms st))
  = (call_messages (snd st) ++ ms)%list.
Proof.
  induction ms as [|m ms IH]; intros [w c].
  - simpl. now rewrite app_nil_r.
  - rewrite loop_cons, IH. simpl. now rewrite <- app_assoc.
Qed.

Lemma loop_transcript ms : forall st,
  Session.messages
    (session_at (fst (executeQuery_loop ms st)) (call_session (snd st)))
  = (Session.messages (session_at (fst st) (call_session (snd st))) ++ ms)%list.
Proof.
  induction ms as [|m ms IH]; intros [w c].
  - simpl. now rewrite app_nil_r.
  - rewrite loop_cons.
    change (call_session (snd (w, c)))
      with (call_session (snd (executeQuery_message m (w, c)))).
    rewrite IH. simpl. rewrite upd_same. simpl. now rewrite <- app_assoc.
Qed.

(** ** C1: a stream that ends normally *)


(** ** Shutdown empties the registry *)

Lemma stop_sessions w : sessions (stop w) = JsMap.empty.
Proof. reflexivity. Qed.

(** ** C3, C6, C10: what the external call is invoked with *)

Lemma used_maxTurns_eq prompt options env w :
  used_maxTurns prompt options env w
  = Some (or_number
            (Options.over (Options.maxTurns (defaultOptions w))
               (Options.maxTurns options)) (JsNumber 10)).
Proof. unfold used_maxTurns. now rewrite start_query. Qed.

(** C3.  A call that sets a permission mode, a system prompt, both tool
    lists and a working directory, on a service built without settings.
    The merged [queryOptions] hold all of them, with the explicit values
    over the defaults, but the object handed to the external call carries
    [maxTurns] and nothing else. *)
Theorem executeQuery_forwards_only_maxTurns :
  let options :=
    {| Options.sessionId := None;
       Options.workingDirectory := Some "/repo";
       Options.maxTurns := Some (JsNumber 5);
       Options.systemPrompt := Some "Answer briefly";
       Options.allowedTools := Some ["Read"];
       Options.disallowedTools := Some ["Bash"];
       Options.permissionMode := Some PmPlan;
       Options.outputFormat := None;
       Options.verbose := None |} in
  let env := {| now := 1000; random36 := "abc" |} in
  let c := snd (executeQuery_start "explain main.ts" options env
                  (constructor None)) in
  Options.permissionMode (defaultOptions (constructor None))
  = Some PmAcceptEdits /\
  Options.permissionMode (merged (call_queryOptions c)) = Some PmPlan /\
  Options.systemPrompt (merged (call_queryOptions c))
  = Some "Answer briefly" /\
  Options.allowedTools (merged (call_queryOptions c)) = Some ["Read"] /\
  Options.disallowedTools (merged (call_queryOptions c)) = Some ["Bash"] /\
  merged_cwd (call_queryOptions c) = Some "/repo" /\
  sdk_options (call_query c)
  = {| sdk_maxTurns := Some (JsNumber 5);
       sdk_permissionMode := None;
       sdk_allowedTools := None;
       sdk_disallowedTools := None;
       sdk_systemPrompt := None;
       sdk_outputFormat := None;
       sdk_cwd := None |}.
Proof. repeat split. Qed.

(** An explicit [maxTurns] of 100 reaches the external call as 100, and
    one of -3 as -3: neither is brought into the range 1..50. *)
Lemma maxTurns_outside_range_is_used :
  let options n :=
    {| Options.sessionId := None; Options.workingDirectory := None;
       Options.maxTurns := Some (JsNumber n); Options.systemPrompt := None;
       Options.allowedTools := None; Options.disallowedTools := None;
       Options.permissionMode := None; Options.outputFormat := None;
       Options.verbose := None |} in
  let env := {| now := 1000; random36 := "abc" |} in
  used_maxTurns "refactor" (options 100) env (constructor None)
  = Some (JsNumber 100) /\
  used_maxTurns "refactor" (options (-3)) env (constructor None)
  = Some (JsNumber (-3)) /\
  ~ (1 <= 100 <= 50) /\ ~ (1 <= -3 <= 50).
Proof. repeat split; lia. Qed.

(** C6, amended.  [executeQuery] does not clamp.  The [maxTurns] property
    of the options, when it is present, decides alone, whatever the service
    default is: a number other than 0 and [NaN] is used as it is, also
    outside 1..50, and so is any other truthy value; a present property
    holding 0, [NaN], [undefined], [null], [false] or [''] gives 10.  Only
    when the property is absent is the service default used, or 10 when
    that is falsy or missing.  The range 1..50 is enforced only by
    [configSchema] on the plugin setting [MAX_TURNS], whose transform raises
    values below 1 to 1, lowers values above 50 to 50 and keeps the
    others. *)
Theorem maxTurns_is_used_unclamped
  (prompt : string) (options : QueryOptions) (env : Env) (w : World) :
  used_maxTurns prompt options env w
  = Some match Options.maxTurns options with
         | Some (JsNumber n) => if n =? 0 then JsNumber 10 else JsNumber n
         | Some JsUndefined => JsNumber 10
         | Some JsNull => JsNumber 10
         | Some JsNaN => JsNumber 10
         | Some (JsBoolean b) => if b then JsBoolean true else JsNumber 10
         | Some (JsString s) =>
             if String.eqb s "" then JsNumber 10 else JsString s
         | Some JsObject => JsObject
         | None =>
             match Options.maxTurns (defaultOptions w) with
             | Some v => if truthy v then v else JsNumber 10
             | None => JsNumber 10
             end
         end /\
  forall input : option Z,
    1 <= configSchema_MAX_TURNS input <= 50 /\
    match input with
    | Some v =>
        configSchema_MAX_TURNS input
        = if v <? 1 then 1 else if 50 <? v then 50 else v
    | None => configSchema_MAX_TURNS input = 10
    end.
Proof.
  split.
  - rewrite used_maxTurns_eq.
    destruct (Options.maxTurns options) as [[|n| | |[]|[]|]|]; cbn;
      try reflexivity.
    now destruct (n =? 0).
  - intros [v|]; unfold configSchema_MAX_TURNS.
    + split; [lia|].
      destruct (Z.ltb_spec v 1); destruct (Z.ltb_spec 50 v); lia.
    + split; [lia | reflexivity].
Qed.

(** C10.  On a service whose settings give no [MAX_TURNS], a call whose
    options have no [maxTurns], or have [maxTurns] 0, invokes the external
    call with [maxTurns] 10. *)
Theorem maxTurns_falls_back_to_10
  (setting : option PluginConfig) (prompt : string) (options : QueryOptions)
  (env : Env) (w : World)
  (Hdefault : defaultOptions w = defaultOptions (constructor setting))
  (Hunset : match setting with
            | Some config => MAX_TURNS config = None
            | None => True
            end)
  (Hfalsy : Options.maxTurns options = None
            \/ Options.maxTurns options = Some (JsNumber 0)) :
  used_maxTurns prompt options env w = Some (JsNumber 10).
Proof.
  rewrite used_maxTurns_eq, Hdefault.
  destruct Hfalsy as [-> | ->]; [|reflexivity].
  destruct setting as [config|]; [|reflexivity].
  cbn. now rewrite Hunset.
Qed.

Lemma maxTurns_falls_back_to_10_witness :
  let options :=
    {| Options.sessionId := Some "s"; Options.workingDirectory := None;
       Options.maxTurns := Some (JsNumber 0); Options.systemPrompt := None;
       Options.allowedTools := None; Options.disallowedTools := None;
       Options.permissionMode := None; Options.outputFormat := None;
       Options.verbose := None |} in
  let config := {| MAX_TURNS := None; PERMISSION_MODE := Some PmPlan |} in
  let env := {| now := 1000; random36 := "abc" |} in
  MAX_TURNS config = None /\
  Options.maxTurns options = Some (JsNumber 0) /\
  used_maxTurns "list files" options env (constructor (Some config))
  = Some (JsNumber 10).
Proof.
  split; [reflexivity|]. split; [reflexivity|].
  apply (maxTurns_falls_back_to_10
           (Some {| MAX_TURNS := None; PERMISSION_MODE := Some PmPlan |}));
    [reflexivity | reflexivity | right; reflexivity].
Defined.

(** ** C9: the status report *)

Lemma count_by_status (l : list ClaudeCodeSession) :
  let count st :=
    length (filter (fun s => status_eqb (Session.status s) st) l) in
  length l
  = (count StIdle + count StRunning + count StCompleted + count StError)%nat.
Proof.
  induction l as [|s l IH]; simpl in *; [reflexivity|].
  destruct (Session.status s); simpl; lia.
Qed.

Lemma count_in_status_filter st store (m : JsMap.t ref) :
  length
    (filter (fun s => status_eqb (Session.status s) st)
       (map store (JsMap.values m)))
  = count_in_status st store m.
Proof.
  induction m as [|[k r] m IH]; [reflexivity|].
  cbn [JsMap.values map filter count_in_status snd].
  destruct (status_eqb (Session.status (store r)) st);
    cbn [length]; fold (JsMap.values m); now rewrite IH.
Qed.

(** C9.  [getStatus()] leaves the world as it is; its [totalSessions] is
    the number of registry entries and equals the sum of the idle, running
    ([activeSessions]), completed and error counts; each of the four counts
    is the number of registry entries whose session is in that status:
    [activeSessions] counts the running ones, [idleSessions] the idle ones,
    [completedSessions] the completed ones and [errorSessions] those in
    error; [apiKeyConfigured] is true exactly when the credential is
    present and not empty. *)
Theorem getStatus_total_is_sum_of_buckets (apiKey : option string) (w : World) :
  let report := snd (getStatus apiKey w) in
  fst (getStatus apiKey w) = w /\
  totalSessions report = JsMap.size (sessions w) /\
  totalSessions report
  = (idleSessions report + activeSessions report
     + completedSessions report + errorSessions report)%nat /\
  (apiKeyConfigured report = true
   <-> exists c key, apiKey = Some (String c key)) /\
  activeSessions report = registered_in_status StRunning w /\
  idleSessions report = registered_in_status StIdle w /\
  completedSessions report = registered_in_status StCompleted w /\
  errorSessions report = registered_in_status StError w.
Proof.
  cbn. split; [reflexivity|].
  split; [unfold JsMap.size, JsMap.values; now rewrite !length_map|].
  split; [apply count_by_status|].
  split.
  - split.
    + destruct apiKey as [[|c key]|]; simpl; intros; try discriminate; eauto.
    + intros (c & key & ->). reflexivity.
  - unfold registered_in_status.
    repeat split; apply count_in_status_filter.
Qed.

(** ** C5: cleaning up old sessions *)

Section TableFilter.
Context {V : Type}.
Implicit Types (m : JsMap.t V) (k : string).

Lemma fold_delete_filter (ids : list string) : forall m,
  fold_left (fun m' id => JsMap.delete id m') ids m
  = filter (fun e => negb (existsb (String.eqb (fst e)) ids)) m.
Proof.
  induction ids as [|id ids IH]; intros m; simpl.
  - induction m as [|e m IHm]; simpl; congruence.
  - rewrite IH. unfold JsMap.delete.
    induction m as [|e m IHm]; simpl; [reflexivity|].
    destruct (String.eqb (fst e) id); simpl; rewrite IHm; reflexivity.
Qed.

Lemma wf_entry_unique m (e e' : string * V) :
  JsMap.wf m -> In e m -> In e' m -> fst e = fst e' -> e = e'.
Proof.
  unfold JsMap.wf, JsMap.keys.
  induction m as [|x m IH]; simpl; intros Hwf He He' Hk; [contradiction|].
  inversion Hwf as [|? ? Hnin Hnd]; subst.
  destruct He as [->|He], He' as [->|He']; auto.
  - exfalso. apply Hnin. rewrite Hk. now apply in_map.
  - exfalso. apply Hnin. rewrite <- Hk. now apply in_map.
Qed.

Lemma mem_selected_keys m (p : string * V -> bool) (e : string * V) :
  JsMap.wf m -> In e m ->
  existsb (String.eqb (fst e)) (map fst (filter p m)) = p e.
Proof.
  intros Hwf He.
  destruct (p e) eqn:Hp.
  - apply existsb_exists. exists (fst e). split; [|apply String.eqb_refl].
    apply in_map, filter_In. auto.
  - destruct (existsb _ _) eqn:Hex; [|reflexivity].
    apply existsb_exists in Hex. destruct Hex as (k & Hk & Heq).
    apply String.eqb_eq in Heq. subst k.
    apply in_map_iff in Hk. destruct Hk as (e' & Hfst & Hin).
    apply filter_In in Hin. destruct Hin as [Hin Hp'].
    assert (e = e') by (eapply wf_entry_unique; eauto).
    congruence.
Qed.

Lemma get_filter m (q : string * V -> bool) k :
  JsMap.wf m ->
  JsMap.get k (filter q m)
  = match JsMap.get k m with
    | Some v => if q (k, v) then Some v else None
    | None => None
    end.
Proof.
  unfold JsMap.wf, JsMap.keys.
  induction m as [|[k0 v0] m IH]; simpl; intros Hwf; [reflexivity|].
  inversion Hwf as [|? ? Hnin Hnd]; subst.
  destruct (String.eqb_spec k0 k) as [->|Hk].
  - destruct (q (k, v0)); simpl.
    + now rewrite String.eqb_refl.
    + apply get_none_keys. intros Hin. apply Hnin.
      unfold JsMap.keys in Hin. apply in_map_iff in Hin.
      destruct Hin as (e & He & Hin). apply filter_In in Hin.
      rewrite <- He. apply in_map. tauto.
  - destruct (q (k0, v0)); simpl.
    + destruct (String.eqb_spec k0 k); [contradiction|]. auto.
    + auto.
Qed.

Lemma filter_complement_length (p : string * V -> bool) m :
  (length (filter p m) + length (filter (fun e => negb (p e)) m))%nat
  = length m.
Proof.
  induction m as [|e m IH]; simpl; [reflexivity|].
  destruct (p e); simpl; lia.
Qed.

End TableFilter.

Lemma cleanup_fold (ids : list string) : forall w,
  fold_left
    (fun (w' : World) (id : string) =>
       set_sessions (JsMap.delete id (sessions w')) w') ids w
  = set_sessions
      (fold_left (fun m id => JsMap.delete id m) ids (sessions w)) w.
Proof.
  induction ids as [|id ids IH]; intros w; simpl.
  - now destruct w.
  - now rewrite IH.
Qed.

(** The registry after [cleanupSessions]: the entries that fail the test,
    in their order. *)
Lemma cleanup_sessions maxAge now w :
  JsMap.wf (sessions w) ->
  sessions (fst (cleanupSessions maxAge now w))
  = filter
      (fun entry =>
         negb (expired (match maxAge with Some v => v | None => 3600000 end)
                 now (session_at w (snd entry))))
      (sessions w).
Proof.
  intros Hwf. unfold cleanupSessions. cbn [fst].
  rewrite cleanup_fold. cbn [set_sessions sessions].
  rewrite fold_delete_filter. apply filter_ext_in.
  intros e He. unfold sessionsToRemove.
  now rewrite mem_selected_keys.
Qed.

Lemma expired_iff maxAge now session :
  expired maxAge now session = true
  <-> now - Session.lastActivityAt session > maxAge
      /\ Session.status session <> StRunning.
Proof.
  unfold expired. rewrite andb_true_iff, negb_true_iff, Z.ltb_lt.
  destruct (status_eqb_spec (Session.status session) StRunning);
    intuition (try congruence; try lia).
Qed.

(** The two idle sessions are removed and the running one is kept, but the
    call evaluates to [undefined], not to the count 2. *)
Lemma cleanupSessions_returns_no_count :
  let result := cleanupSessions (Some 3600000) 7200000 three_old_sessions in
  JsMap.keys (sessions three_old_sessions) = ["a"; "b"; "c"] /\
  JsMap.keys (sessions (fst result)) = ["c"] /\
  snd result = JsUndefined /\
  snd result <> JsNumber 2.
Proof. repeat split. discriminate. Qed.

(** C5, amended.  [cleanupSessions(maxAge)] removes from the registry
    exactly the sessions with [now - lastActivityAt > maxAge] whose status
    is not ['running'] (a running session stays, whatever its age), with
    [maxAge] one hour when omitted; it touches no session object; the
    number of ids it collected for removal is the number of entries that
    disappeared.  The call itself evaluates to [undefined]: no count is
    returned. *)
Theorem cleanupSessions_removes_expired_not_running
  (maxAge : option Z) (now : Z) (w : World)
  (Hwf : JsMap.wf (sessions w)) :
  let limit := match maxAge with Some v => v | None => 3600000 end in
  let result := cleanupSessions maxAge now w in
  (forall id,
     getSession id (fst result)
     = match getSession id w with
       | Some session =>
           if expired limit now (session_at w session)
           then None else Some session
       | None => None
       end) /\
  (forall session,
     expired limit now session = true
     <-> now - Session.lastActivityAt session > limit
         /\ Session.status session <> StRunning) /\
  (forall r, session_at (fst result) r = session_at w r) /\
  length (sessionsToRemove limit now w)
  = (JsMap.size (sessions w) - JsMap.size (sessions (fst result)))%nat /\
  snd result = JsUndefined.
Proof.
  cbn zeta. split; [|split; [|split; [|split]]].
  - intros id. unfold getSession. rewrite cleanup_sessions by assumption.
    rewrite get_filter by assumption.
    destruct (JsMap.get id (sessions w)) as [session|]; [|reflexivity].
    cbn [snd]. now destruct (expired _ now (session_at w session)).
  - intros session. apply expired_iff.
  - intros r. unfold cleanupSessions. cbn [fst]. now rewrite cleanup_fold.
  - rewrite cleanup_sessions by assumption.
    unfold sessionsToRemove, JsMap.size. rewrite length_map.
    pose proof (filter_complement_length
                  (fun entry : string * ref =>
                     expired
                       (match maxAge with Some v => v | None => 3600000 end)
                       now (session_at w (snd entry))) (sessions w)) as H.
    lia.
  - reflexivity.
Qed.

Lemma cleanupSessions_removes_expired_not_running_witness :
  JsMap.wf (sessions three_old_sessions) /\
  forall id,
    getSession id
      (fst (cleanupSessions (Some 3600000) 7200000 three_old_sessions))
    = match getSession id three_old_sessions with
      | Some session =>
          if expired 3600000 7200000 (session_at three_old_sessions session)
          then None else Some session
      | None => None
      end.
Proof.
  assert (Hwf : JsMap.wf (sessions three_old_sessions)).
  { unfold JsMap.wf. cbn. repeat constructor; simpl; intuition discriminate. }
  split; [exact Hwf|].
  exact (proj1 (cleanupSessions_removes_expired_not_running
                  (Some 3600000) 7200000 three_old_sessions Hwf)).
Defined.

(** ** C7: generated session ids *)

Lemma no_dash_uint (d : Decimal.uint) :
  no_dash (NilEmpty.string_of_uint d) = true.
Proof. induction d; simpl; auto. Qed.

Lemma no_dash_uint_zero (d : Decimal.uint) :
  no_dash (NilZero.string_of_uint d) = true.
Proof. destruct d; try apply no_dash_uint. reflexivity. Qed.

(** Two texts cut at their first minus sign agree on both sides. *)
Lemma cut_at_dash (a : string) : forall b r1 r2,
  no_dash a = true -> no_dash b = true ->
  a ++ String "-" r1 = b ++ String "-" r2 -> a = b /\ r1 = r2.
Proof.
  induction a as [|c a IH]; intros [|c' b] r1 r2 Ha Hb H; simpl in *.
  - injection H as ->. auto.
  - injection H as <- _. simpl in Hb. discriminate.
  - injection H as -> _. simpl in Ha. discriminate.
  - injection H as -> H.
    apply andb_true_iff in Ha, Hb.
    destruct (IH b r1 r2) as [-> ->]; tauto.
Qed.

Lemma string_of_Z_inj z1 z2 : string_of_Z z1 = string_of_Z z2 -> z1 = z2.
Proof.
  unfold string_of_Z. intros H.
  apply DecimalZ.to_int_inj.
  assert (Hnn : forall z, Z.to_int z <> Decimal.Pos Decimal.Nil
                          /\ Z.to_int z <> Decimal.Neg Decimal.Nil).
  { intros [|p|p]; simpl; split; try discriminate;
      intros [= E]; exact (DecimalPos.Unsigned.to_uint_nonnil p E). }
  apply (f_equal NilZero.int_of_string) in H.
  rewrite !NilZero.isi in H by apply Hnn.
  now injection H.
Qed.

(** The decimal text of an integer: an optional sign, then at least one
    character, none of them a minus sign. *)
Lemma string_of_Z_shape z :
  exists sign c digits,
    string_of_Z z = sign ++ String c digits
    /\ (sign = "" \/ sign = "-")
    /\ no_dash (String c digits) = true.
Proof.
  unfold string_of_Z.
  assert (Hne : forall d, d <> Decimal.Nil ->
            exists c digits, NilZero.string_of_uint d = String c digits).
  { intros d Hd. destruct d; simpl; eauto; contradiction. }
  destruct z as [|p|p]; cbn [Z.to_int NilZero.string_of_int].
  - exists "", "0"%char, "". auto.
  - destruct (Hne (Pos.to_uint p)) as (c & digits & E);
      [apply DecimalPos.Unsigned.to_uint_nonnil|].
    exists "", c, digits. rewrite <- E. split; [reflexivity|].
    split; [auto | apply no_dash_uint_zero].
  - destruct (Hne (Pos.to_uint p)) as (c & digits & E);
      [apply DecimalPos.Unsigned.to_uint_nonnil|].
    exists "-", c, digits. rewrite <- E. split; [reflexivity|].
    split; [auto | apply no_dash_uint_zero].
Qed.

(** An id determines the clock reading and the random text it was made
    from. *)
Lemma generateSessionId_inj env1 env2 :
  generateSessionId env1 = generateSessionId env2 ->
  now env1 = now env2 /\ random36 env1 = random36 env2.
Proof.
  unfold generateSessionId. intros H. simpl in H.
  injection H as H.
  destruct (string_of_Z_shape (now env1)) as (s1 & c1 & d1 & E1 & Hs1 & N1).
  destruct (string_of_Z_shape (now env2)) as (s2 & c2 & d2 & E2 & Hs2 & N2).
  rewrite E1, E2 in H.
  assert (Hcut : s1 = s2 /\ String c1 d1 = String c2 d2
                 /\ random36 env1 = random36 env2).
  { simpl in N1, N2. apply andb_true_iff in N1, N2.
    destruct Hs1 as [-> | ->], Hs2 as [-> | ->]; cbn [append] in H.
    - injection H as Hc Hd. apply cut_at_dash in Hd; try tauto.
      destruct Hd as [-> ->]. now rewrite Hc.
    - injection H as -> _. now destruct N1.
    - injection H as <- _. now destruct N2.
    - injection H as Hc Hd. apply cut_at_dash in Hd; try tauto.
      destruct Hd as [-> ->]. now rewrite Hc. }
  destruct Hcut as (-> & Hd & Hr). split; [|exact Hr].
  apply string_of_Z_inj. now rewrite E1, E2, Hd.
Qed.

Lemma createSession_id sessionId workingDirectory env w :
  Session.id
    (session_at (fst (createSession sessionId workingDirectory env w))
       (snd (createSession sessionId workingDirectory env w)))
  = or_string sessionId (generateSessionId env).
Proof. cbn. now rewrite upd_same. Qed.

Lemma create_one_id c w :
  no_explicit_id c ->
  snd (create_one c w) = generateSessionId (creation_env c).
Proof.
  destruct c as [wd env | prompt options env]; intros H;
    unfold create_one, creation_env, no_explicit_id in *.
  - pose proof (createSession_id None wd env w) as E.
    destruct (createSession None wd env w) as [w' session]. exact E.
  - pose proof (start_sessionId prompt options env w) as E.
    destruct (executeQuery_start prompt options env w) as [w' call].
    cbn [snd] in *. rewrite E. unfold resolved_id. now rewrite H.
Qed.

Lemma create_all_ids cs : forall w,
  Forall no_explicit_id cs ->
  snd (create_all cs w)
  = map (fun c => generateSessionId (creation_env c)) cs.
Proof.
  induction cs as [|c cs IH]; intros w Hcs; [reflexivity|].
  inversion Hcs as [|? ? Hc Hcs']; subst. cbn [create_all map].
  pose proof (create_one_id c w Hc) as E.
  destruct (create_one c w) as [w1 id].
  specialize (IH w1 Hcs').
  destruct (create_all cs w1) as [w2 ids].
  cbn [snd] in *. congruence.
Qed.

(** Two sessions created in the same millisecond with the same random text
    get the same id. *)
Lemma same_clock_and_random_same_id :
  let env := {| now := 1700000000000; random36 := "k3j9x2a" |} in
  let ids :=
    snd (create_all [ByCreateSession None env; ByCreateSession None env]
           (constructor None)) in
  ids = ["claude-1700000000000-k3j9x2a"; "claude-1700000000000-k3j9x2a"]
  /\ ~ NoDup ids.
Proof.
  split; [reflexivity|].
  intros H. inversion H as [|? ? Hnin _]. apply Hnin. now left.
Qed.

(** C7, amended.  For any number of calls that create a session without
    an explicit id, the id of each is
    [claude-<clock reading>-<random text>], and the ids are pairwise
    distinct whenever the pairs of clock reading and random text the calls
    drew are pairwise distinct. *)
Theorem generated_ids_distinct_for_distinct_draws
  (cs : list Creation) (w : World)
  (Hids : Forall no_explicit_id cs)
  (Hdraws : NoDup (map draw cs)) :
  snd (create_all cs w) = map (fun c => generateSessionId (creation_env c)) cs
  /\ NoDup (snd (create_all cs w)).
Proof.
  split; [now apply create_all_ids|].
  rewrite create_all_ids by assumption.
  pose (id_of := fun d : Z * string =>
                   generateSessionId {| now := fst d; random36 := snd d |}).
  assert (E : map (fun c => generateSessionId (creation_env c)) cs
              = map id_of (map draw cs)).
  { rewrite map_map. apply map_ext. intros c.
    unfold id_of, draw. now destruct (creation_env c). }
  rewrite E. apply Injective_map_NoDup; [|assumption].
  intros [t1 r1] [t2 r2] H. apply generateSessionId_inj in H.
  cbn in H. destruct H. congruence.
Qed.

Lemma generated_ids_distinct_for_distinct_draws_witness :
  let cs :=
    [ByCreateSession None {| now := 1700000000000; random36 := "k3j9x2a" |};
     ByExecuteQuery "add a README" Options.empty
       {| now := 1700000000000; random36 := "p0q8w1z" |};
     ByCreateSession (Some "/repo")
       {| now := 1700000000001; random36 := "k3j9x2a" |}] in
  Forall no_explicit_id cs /\ NoDup (map draw cs) /\
  NoDup (snd (create_all cs (constructor None))).
Proof.
  cbn zeta.
  assert (Hids : Forall no_explicit_id
            [ByCreateSession None
               {| now := 1700000000000; random36 := "k3j9x2a" |};
             ByExecuteQuery "add a README" Options.empty
               {| now := 1700000000000; random36 := "p0q8w1z" |};
             ByCreateSession (Some "/repo")
               {| now := 1700000000001; random36 := "k3j9x2a" |}]).
  { repeat constructor. }
  assert (Hdraws : NoDup (map draw
            [ByCreateSession None
               {| now := 1700000000000; random36 := "k3j9x2a" |};
             ByExecuteQuery "add a README" Options.empty
               {| now := 1700000000000; random36 := "p0q8w1z" |};
             ByCreateSession (Some "/repo")
               {| now := 1700000000001; random36 := "k3j9x2a" |}])).
  { cbn. repeat constructor; simpl; intuition discriminate. }
  split; [exact Hids|]. split; [exact Hdraws|].
  exact (proj2 (generated_ids_distinct_for_distinct_draws _
                  (constructor None) Hids Hdraws)).
Defined.

(** ** The invariant of the registry *)

Lemma in_set {V : Type} (k k' : string) (v v' : V) (m : JsMap.t V) :
  In (k', v') (JsMap.set k v m) -> (k', v') = (k, v) \/ In (k', v') m.
Proof.
  induction m as [|[k0 v0] m IH]; simpl.
  - intros [H|[]]; auto.
  - destruct (String.eqb k0 k); simpl; intros [H|H]; auto.
    destruct (IH H); auto.
Qed.

Lemma Inv_constructor setting : Inv (constructor setting).
Proof.
  split.
  - constructor.
  - intros k r [].
  - intros r Hr. cbn in Hr. lia.
Qed.

Lemma Inv_modify r f w :
  (forall s, Session.abortController (f s) = Session.abortController s) ->
  Inv w -> Inv (modify_session r f w).
Proof.
  intros Hf [Hwf Hlive Halloc].
  assert (Hc : forall r', Session.abortController
                            (session_at (modify_session r f w) r')
                          = Session.abortController (session_at w r')).
  { intros r'. cbn. unfold upd. destruct (Nat.eqb_spec r' r); subst; auto. }
  split.
  - exact Hwf.
  - intros k r' Hin. rewrite Hc. apply (Hlive k r' Hin).
  - intros r' Hr'. rewrite Hc. apply (Halloc r' Hr').
Qed.

Lemma Inv_register k r w :
  (r < session_next w)%nat ->
  aborted w (Session.abortController (session_at w r)) = false ->
  Inv w -> Inv (set_sessions (JsMap.set k r (sessions w)) w).
Proof.
  intros Hr Ha [Hwf Hlive Halloc]. split.
  - now apply wf_set.
  - intros k' r' Hin. cbn in Hin. apply in_set in Hin.
    destruct Hin as [[= -> ->]|Hin]; cbn; auto.
    apply (Hlive k' r' Hin).
  - exact Halloc.
Qed.

Lemma Inv_shrink m w :
  JsMap.wf m -> incl m (sessions w) ->
  Inv w -> Inv (set_sessions m w).
Proof.
  intros Hm Hincl [Hwf Hlive Halloc]. split.
  - exact Hm.
  - intros k r Hin. apply (Hlive k r). now apply Hincl.
  - exact Halloc.
Qed.

Lemma Inv_createSession sessionId workingDirectory env w :
  Inv w -> Inv (fst (createSession sessionId workingDirectory env w)).
Proof.
  intros [Hwf Hlive Halloc]. split.
  - cbn. now apply wf_set.
  - intros k r Hin. cbn in Hin. apply in_set in Hin. cbn.
    destruct Hin as [[= -> ->]|Hin].
    + split; [lia|]. now rewrite !upd_same.
    + destruct (Hlive k r Hin) as [Hr Ha]. split; [lia|].
      rewrite (upd_other (session_at w)) by lia.
      unfold upd. now destruct (Nat.eqb _ _).
  - intros r Hr. cbn in *. unfold upd at 1.
    destruct (Nat.eqb_spec r (session_next w)) as [->|Hne]; cbn; [lia|].
    assert (r < session_next w)%nat by lia.
    specialize (Halloc r). lia.
Qed.

Lemma createSession_new sessionId workingDirectory env w :
  let result := createSession sessionId workingDirectory env w in
  snd result = session_next w /\
  (session_next w < session_next (fst result))%nat /\
  Session.abortController (session_at (fst result) (snd result))
  = controller_next w /\
  aborted (fst result) (controller_next w) = false.
Proof. cbn. rewrite !upd_same. repeat split. lia. Qed.

Lemma Inv_start prompt options env w :
  Inv w -> Inv (fst (executeQuery_start prompt options env w)).
Proof.
  intros HI. unfold executeQuery_start.
  destruct (JsMap.get _ (sessions w)) as [session|] eqn:E.
  - cbn [fst]. now repeat apply Inv_modify.
  - pose proof (Inv_createSession
                  (Some (or_string (Options.sessionId options)
                           (generateSessionId env)))
                  (Options.workingDirectory options) env w HI) as HI'.
    pose proof (createSession_new
                  (Some (or_string (Options.sessionId options)
                           (generateSessionId env)))
                  (Options.workingDirectory options) env w) as Hnew.
    destruct (createSession _ _ env w) as [w' session].
    cbn [fst snd] in *. destruct Hnew as (-> & Hlt & Hc & Ha).
    repeat apply Inv_modify; auto.
    apply Inv_register; auto. now rewrite Hc.
Qed.

Lemma stop_fold_store (l : list (string * ref)) : forall w,
  let w' :=
    fold_left
      (fun (w' : World) (entry : string * ref) =>
         let session := session_at w' (snd entry) in
         if status_eqb (Session.status session) StRunning
         then abort (Session.abortController session) w'
         else w') l w in
  session_at w' = session_at w /\ session_next w' = session_next w
  /\ controller_next w' = controller_next w.
Proof.
  induction l as [|e l IH]; intros w; cbn [fold_left]; [auto|].
  cbn zeta in *.
  destruct (status_eqb _ StRunning);
    [destruct (IH (abort (Session.abortController (session_at w (snd e))) w))
       as (-> & -> & ->) | destruct (IH w) as (-> & -> & ->)];
    auto.
Qed.

Lemma Inv_stop w : Inv w -> Inv (stop w).
Proof.
  intros [Hwf Hlive Halloc]. unfold stop.
  destruct (stop_fold_store (sessions w) w) as (Hs & Hn & Hc).
  split.
  - constructor.
  - intros k r [].
  - intros r Hr. cbn in *. rewrite Hs, Hc. rewrite Hn in Hr. auto.
Qed.

Lemma Inv_cleanupSessions maxAge now w :
  Inv w -> Inv (fst (cleanupSessions maxAge now w)).
Proof.
  intros HI. unfold cleanupSessions. cbn [fst]. rewrite cleanup_fold.
  rewrite fold_delete_filter. apply Inv_shrink; auto.
  - destruct HI as [Hwf _ _]. revert Hwf. unfold JsMap.wf, JsMap.keys.
    generalize (sessions w). intros m.
    induction m as [|e m IH]; simpl; intros Hnd; [constructor|].
    inversion Hnd as [|? ? Hnin Hnd']; subst.
    destruct (negb _); simpl; auto. constructor; auto.
    intros Hin. apply Hnin. apply in_map_iff in Hin.
    destruct Hin as (e' & He' & Hin). apply filter_In in Hin.
    rewrite <- He'. apply in_map. tauto.
  - intros e He. now apply filter_In in He.
Qed.

Lemma Inv_step ev sys sys' :
  step ev sys = Some sys' -> Inv (world sys) -> Inv (world sys').
Proof.
  destruct ev; cbn [step]; intros H HI.
  - injection H as <-. now apply Inv_createSession.
  - pose proof (Inv_start prompt options env (world sys) HI) as HI'.
    destruct (executeQuery_start prompt options env (world sys)).
    injection H as <-. exact HI'.
  - destruct (in_flight call sys); [|discriminate].
    injection H as <-. now apply Inv_modify.
  - destruct (in_flight call sys); [|discriminate].
    injection H as <-. now apply Inv_modify.
  - destruct (in_flight call sys); [|discriminate].
    injection H as <-. now apply Inv_modify.
  - injection H as <-. now apply Inv_cleanupSessions.
  - injection H as <-. exact HI.
  - injection H as <-. now apply Inv_stop.
Qed.

Lemma reachable_Inv sys : reachable sys -> Inv (world sys).
Proof.
  induction 1 as [setting | ev sys sys' _ IH Hstep].
  - apply Inv_constructor.
  - eapply Inv_step; eauto.
Qed.

Lemma run_reachable evs : forall sys sys',
  reachable sys -> run evs sys = Some sys' -> reachable sys'.
Proof.
  induction evs as [|ev evs IH]; intros sys sys' Hr H; simpl in H.
  - now injection H as <-.
  - destruct (step ev sys) as [sys1|] eqn:E; [|discriminate].
    eapply IH; [|exact H]. eapply reachable_step; eauto.
Qed.

(** ** C4: sessions whose cancellation handle has fired *)

Lemma start_session_cases prompt options env w :
  let st := executeQuery_start prompt options env w in
  getSession (resolved_id options env) w = Some (call_session (snd st))
  \/ (getSession (resolved_id options env) w = None
      /\ call_session (snd st) = session_next w).
Proof.
  unfold executeQuery_start, getSession, resolved_id. cbn zeta.
  destruct (JsMap.get _ (sessions w)); cbn; auto.
Qed.

(** C4.  In every state the service can reach (handles are fired by
    [stop()] only, which also clears the registry), an [executeQuery]
    invocation never works on a session whose cancellation handle has
    fired: the handle it passes to the external call is the one of the
    session it resolved and is unfired, and that session is none of the
    session objects with a fired handle.  After [stop()] no id is
    registered, so a further query on the id of an aborted session gets a
    new session object. *)
Theorem executeQuery_never_reuses_fired_session
  (sys : System) (Hreach : reachable sys)
  (prompt : string) (options : QueryOptions) (env : Env) :
  let st := executeQuery_start prompt options env (world sys) in
  let session := call_session (snd st) in
  sdk_abortController (call_query (snd st))
  = Session.abortController (session_at (fst st) session) /\
  aborted (fst st) (sdk_abortController (call_query (snd st))) = false /\
  (forall old,
     (old < session_next (world sys))%nat ->
     aborted (world sys)
       (Session.abortController (session_at (world sys) old)) = true ->
     session <> old) /\
  (forall id, getSession id (stop (world sys)) = None).
Proof.
  cbn zeta. apply reachable_Inv in Hreach.
  pose proof (Inv_start prompt options env (world sys) Hreach) as HI.
  pose proof (start_registered prompt options env (world sys)) as Hreg.
  pose proof (start_session_cases prompt options env (world sys)) as Hcase.
  rewrite start_query. cbn [sdk_abortController].
  split; [reflexivity|]. split; [|split].
  - apply get_in in Hreg. now apply (inv_live _ HI) in Hreg.
  - intros old Hold Hfired Heq. cbn zeta in Hcase.
    destruct Hcase as [Hsome | [_ Hnew]].
    + apply get_in in Hsome. apply (inv_live _ Hreach) in Hsome.
      rewrite Heq in Hsome. destruct Hsome as [_ Hlive]. congruence.
    + lia.
  - reflexivity.
Qed.

Lemma executeQuery_never_reuses_fired_session_witness :
  let options :=
    {| Options.sessionId := Some "s"; Options.workingDirectory := None;
       Options.maxTurns := None; Options.systemPrompt := None;
       Options.allowedTools := None; Options.disallowedTools := None;
       Options.permissionMode := None; Options.outputFormat := None;
       Options.verbose := None |} in
  let env := {| now := 2000; random36 := "xyz" |} in
  let w := world stopped_while_running in
  let st := executeQuery_start "try again" options env w in
  reachable stopped_while_running /\
  Session.id (session_at w 0%nat) = "s" /\
  aborted w (Session.abortController (session_at w 0%nat)) = true /\
  call_session (snd st) <> 0%nat /\
  aborted (fst st) (sdk_abortController (call_query (snd st))) = false.
Proof.
  cbn zeta.
  assert (Hreach : reachable stopped_while_running).
  { apply (run_reachable stop_while_running (boot None));
      [apply reachable_boot | reflexivity]. }
  split; [exact Hreach|]. split; [reflexivity|]. split; [reflexivity|].
  pose proof (executeQuery_never_reuses_fired_session
                stopped_while_running Hreach "try again"
                {| Options.sessionId := Some "s";
                   Options.workingDirectory := None;
                   Options.maxTurns := None; Options.systemPrompt := None;
                   Options.allowedTools := None;
                   Options.disallowedTools := None;
                   Options.permissionMode := None;
                   Options.outputFormat := None;
                   Options.verbose := None |}
                {| now := 2000; random36 := "xyz" |}) as H.
  cbn zeta in H. destruct H as (_ & Hunfired & Hold & _).
  split; [|exact Hunfired].
  apply Hold; [vm_compute; lia | reflexivity].
Defined.

(** [executeQuery] never reads [signal.aborted]: firing any handle
    beforehand changes nothing in the session it resolves or in what it
    hands to the external call.  The property above rests on [stop()]
    clearing the registry, not on a test in [executeQuery]. *)
Remark executeQuery_start_ignores_signal
  (prompt : string) (options : QueryOptions) (env : Env) (w : World)
  (c : ref) :
  JsMap.get (resolved_id options env) (sessions w) <> None ->
  snd (executeQuery_start prompt options env (abort c w))
  = snd (executeQuery_start prompt options env w).
Proof.
  unfold executeQuery_start, resolved_id. cbn [abort sessions].
  destruct (JsMap.get _ (sessions w)); [reflexivity | congruence].
Qed.

(** ** C8: creating a session *)



(** * Further properties of the service *)

(** ** Session objects over time *)

Lemma grown_refl s : grown s s.
Proof.
  repeat split. exists []. now rewrite app_nil_r.
Qed.

Lemma grown_trans s1 s2 s3 : grown s1 s2 -> grown s2 s3 -> grown s1 s3.
Proof.
  intros (Hi & Hs & Hw & Hc & l & Hm) (Hi' & Hs' & Hw' & Hc' & l' & Hm').
  repeat split; try congruence.
  exists (l ++ l')%list. rewrite Hm', Hm. now rewrite app_assoc.
Qed.

Lemma modify_grown r f w :
  (forall s, grown s (f s)) ->
  forall r', grown (session_at w r') (session_at (modify_session r f w) r').
Proof.
  intros Hf r'. cbn. unfold upd.
  destruct (Nat.eqb_spec r' r) as [->|_]; [apply Hf | apply grown_refl].
Qed.

Lemma set_status_grown v s : grown s (Session.set_status v s).
Proof. repeat split. exists []. cbn. now rewrite app_nil_r. Qed.

Lemma set_lastActivityAt_grown v s : grown s (Session.set_lastActivityAt v s).
Proof. repeat split. exists []. cbn. now rewrite app_nil_r. Qed.

Lemma push_message_grown m s : grown s (Session.push_message m s).
Proof. repeat split. now exists [m]. Qed.

Lemma start_grown prompt options env w r :
  (r < session_next w)%nat ->
  grown (session_at w r)
    (session_at (fst (executeQuery_start prompt options env w)) r).
Proof.
  intros Hr. unfold executeQuery_start.
  destruct (JsMap.get _ (sessions w)) as [session|]; cbn [fst].
  - eapply grown_trans;
      [apply modify_grown, set_status_grown
      | apply modify_grown, set_lastActivityAt_grown].
  - cbn. rewrite !upd_other by lia. apply grown_refl.
Qed.

Lemma start_next prompt options env w :
  (session_next w
   <= session_next (fst (executeQuery_start prompt options env w)))%nat.
Proof.
  unfold executeQuery_start.
  destruct (JsMap.get _ (sessions w)); cbn; lia.
Qed.

Lemma stop_keeps_objects w :
  session_at (stop w) = session_at w /\ session_next (stop w) = session_next w.
Proof.
  pose proof (stop_fold_store (sessions w) w) as H. cbn zeta in H.
  unfold stop. cbn zeta. cbn [set_sessions session_at session_next].
  destruct H as (-> & -> & _). auto.
Qed.

Lemma cleanup_keeps_objects maxAge now w :
  session_at (fst (cleanupSessions maxAge now w)) = session_at w
  /\ session_next (fst (cleanupSessions maxAge now w)) = session_next w.
Proof. unfold cleanupSessions. cbn [fst]. now rewrite cleanup_fold. Qed.

Lemma step_grown ev sys sys' :
  step ev sys = Some sys' ->
  (session_next (world sys) <= session_next (world sys'))%nat /\
  forall r, (r < session_next (world sys))%nat ->
    grown (session_at (world sys) r) (session_at (world sys') r).
Proof.
  destruct ev as [sid wd env | prompt options env | call m | call
                 | call err | maxAge t | apiKey | ];
    cbn [step]; intros H.
  - injection H as <-. cbn. split; [lia|].
    intros r Hr. rewrite upd_other by lia. apply grown_refl.
  - pose proof (start_next prompt options env (world sys)) as Hn.
    pose proof (start_grown prompt options env (world sys)) as Hg.
    destruct (executeQuery_start prompt options env (world sys)).
    injection H as <-. cbn [world fst] in *. auto.
  - destruct (in_flight call sys); [|discriminate].
    injection H as <-. cbn [world]. split; [cbn; lia|].
    intros r _. apply modify_grown, push_message_grown.
  - destruct (in_flight call sys); [|discriminate].
    injection H as <-. cbn [world]. split; [cbn; lia|].
    intros r _. apply modify_grown, set_status_grown.
  - destruct (in_flight call sys); [|discriminate].
    injection H as <-. cbn [world]. split; [cbn; lia|].
    intros r _. apply modify_grown, set_status_grown.
  - replace (world sys') with (fst (cleanupSessions maxAge t (world sys)))
      by (injection H as <-; reflexivity).
    destruct (cleanup_keeps_objects maxAge t (world sys)) as [-> ->].
    split; [lia|]. intros. apply grown_refl.
  - injection H as <-. cbn. split; [lia|]. intros. apply grown_refl.
  - replace (world sys') with (stop (world sys))
      by (injection H as <-; reflexivity).
    destruct (stop_keeps_objects (world sys)) as [-> ->].
    split; [lia|]. intros. apply grown_refl.
Qed.

(** X1.  Whatever the service does (creating sessions, queries with their
    messages interleaved, clean-up, status reports, shutdown), a session
    object that exists keeps its id, start time, working directory and
    cancellation handle, and its transcript is only ever extended at the
    end: what was in it stays, in the same order. *)
Theorem transcripts_only_grow
  (evs : list Event) (sys sys' : System) (r : ref)
  (Hrun : run evs sys = Some sys')
  (Hr : (r < session_next (world sys))%nat) :
  grown (session_at (world sys) r) (session_at (world sys') r).
Proof.
  revert sys Hrun Hr.
  induction evs as [|ev evs IH]; intros sys Hrun Hr; simpl in Hrun.
  - injection Hrun as <-. apply grown_refl.
  - destruct (step ev sys) as [sys1|] eqn:E; [|discriminate].
    destruct (step_grown ev sys sys1 E) as [Hn Hg].
    eapply grown_trans; [apply Hg, Hr | apply IH; [exact Hrun | lia]].
Qed.

Lemma transcripts_only_grow_witness :
  run shutdown_while_running idle_and_running_system = Some after_shutdown /\
  (1 < session_next (world idle_and_running_system))%nat /\
  grown (session_at (world idle_and_running_system) 1%nat)
    (session_at (world after_shutdown) 1%nat).
Proof.
  split; [vm_compute; reflexivity|].
  split; [vm_compute; lia|].
  apply (transcripts_only_grow shutdown_while_running
           idle_and_running_system);
    [vm_compute; reflexivity | vm_compute; lia].
Defined.

(** ** Two more invariants of the registry *)

Lemma or_string_settled a b c :
  (exists x s, b = String x s) ->
  or_string (Some (or_string a b)) c = or_string a b.
Proof.
  intros (x & s & ->). now destruct a as [[|x' s']|].
Qed.

Lemma generateSessionId_nonempty env :
  exists x s, generateSessionId env = String x s.
Proof. unfold generateSessionId. simpl. eauto. Qed.

Lemma filed_modify r f w :
  (forall s, Session.id (f s) = Session.id s) ->
  filed_under_id w -> filed_under_id (modify_session r f w).
Proof.
  intros Hf Hw k r' Hin. cbn in *. unfold upd.
  destruct (Nat.eqb_spec r' r) as [->|_]; [rewrite Hf|]; now apply Hw.
Qed.

Lemma filed_createSession sessionId workingDirectory env w :
  Inv w -> filed_under_id w ->
  filed_under_id (fst (createSession sessionId workingDirectory env w)).
Proof.
  intros [_ Hlive _] Hw k r Hin. cbn in *. apply in_set in Hin.
  destruct Hin as [[= -> ->]|Hin].
  - now rewrite upd_same.
  - destruct (Hlive k r Hin) as [Hr _].
    rewrite upd_other by lia. now apply Hw.
Qed.

Lemma filed_register k r w :
  Session.id (session_at w r) = k ->
  filed_under_id w ->
  filed_under_id (set_sessions (JsMap.set k r (sessions w)) w).
Proof.
  intros Hid Hw k' r' Hin. cbn in *. apply in_set in Hin.
  destruct Hin as [[= -> ->]|Hin]; [assumption | now apply Hw].
Qed.

Lemma filed_start prompt options env w :
  Inv w -> filed_under_id w ->
  filed_under_id (fst (executeQuery_start prompt options env w)).
Proof.
  intros HI Hw. unfold executeQuery_start.
  destruct (JsMap.get _ (sessions w)) as [session|] eqn:E.
  - cbn [fst]. now repeat apply filed_modify.
  - pose proof (filed_createSession
                  (Some (or_string (Options.sessionId options)
                           (generateSessionId env)))
                  (Options.workingDirectory options) env w HI Hw) as Hw'.
    pose proof (createSession_id
                  (Some (or_string (Options.sessionId options)
                           (generateSessionId env)))
                  (Options.workingDirectory options) env w) as Hid.
    rewrite or_string_settled in Hid by apply generateSessionId_nonempty.
    destruct (createSession _ _ env w) as [w' session].
    cbn [fst snd] in *.
    repeat apply filed_modify; auto. now apply filed_register.
Qed.

Lemma filed_shrink m w :
  incl m (sessions w) -> filed_under_id w -> filed_under_id (set_sessions m w).
Proof. intros Hincl Hw k r Hin. apply (Hw k r). now apply Hincl. Qed.

Lemma cleanup_registry_shrinks maxAge now w :
  incl (sessions (fst (cleanupSessions maxAge now w))) (sessions w).
Proof.
  unfold cleanupSessions. cbn [fst]. rewrite cleanup_fold.
  cbn [set_sessions sessions]. rewrite fold_delete_filter.
  intros e He. now apply filter_In in He.
Qed.

Lemma filed_step ev sys sys' :
  step ev sys = Some sys' -> Inv (world sys) ->
  filed_under_id (world sys) -> filed_under_id (world sys').
Proof.
  destruct ev as [sid wd env | prompt options env | call m | call
                 | call err | maxAge t | apiKey | ];
    cbn [step]; intros H HI Hw.
  - replace (world sys') with (fst (createSession sid wd env (world sys)))
      by (injection H as <-; reflexivity).
    now apply filed_createSession.
  - pose proof (filed_start prompt options env (world sys) HI Hw) as Hw'.
    destruct (executeQuery_start prompt options env (world sys)).
    injection H as <-. exact Hw'.
  - destruct (in_flight call sys); [|discriminate].
    injection H as <-. now apply filed_modify.
  - destruct (in_flight call sys); [|discriminate].
    injection H as <-. now apply filed_modify.
  - destruct (in_flight call sys); [|discriminate].
    injection H as <-. now apply filed_modify.
  - replace (world sys') with (fst (cleanupSessions maxAge t (world sys)))
      by (injection H as <-; reflexivity).
    intros k r Hin.
    destruct (cleanup_keeps_objects maxAge t (world sys)) as [-> _].
    apply Hw. now apply (cleanup_registry_shrinks maxAge t).
  - injection H as <-. exact Hw.
  - injection H as <-. intros k r [].
Qed.

Lemma reachable_filed sys : reachable sys -> filed_under_id (world sys).
Proof.
  induction 1 as [setting | ev sys sys' Hreach IH Hstep].
  - intros k r [].
  - eapply filed_step; eauto using reachable_Inv.
Qed.

(** X2.  In every state the service can reach, the session found under an
    id carries that id: [getSession(k)] never returns a session whose [id]
    field differs from [k]. *)
Theorem registered_session_has_its_key
  (sys : System) (Hreach : reachable sys) (k : string) (r : ref)
  (Hget : getSession k (world sys) = Some r) :
  Session.id (session_at (world sys) r) = k.
Proof.
  apply (reachable_filed sys Hreach). now apply get_in.
Qed.

Lemma registered_session_has_its_key_witness :
  reachable idle_and_running_system /\
  getSession "busy-one" (world idle_and_running_system) = Some 1%nat /\
  Session.id (session_at (world idle_and_running_system) 1%nat) = "busy-one".
Proof.
  assert (Hreach : reachable idle_and_running_system).
  { apply (run_reachable idle_and_running (boot None));
      [apply reachable_boot | reflexivity]. }
  split; [exact Hreach|]. split; [reflexivity|].
  apply (registered_session_has_its_key idle_and_running_system Hreach).
  reflexivity.
Defined.

Lemma own_modify r f w :
  (forall s, Session.abortController (f s) = Session.abortController s) ->
  own_controllers w -> own_controllers (modify_session r f w).
Proof.
  intros Hf Hw r1 r2 H1 H2. cbn in *. unfold upd.
  destruct (Nat.eqb_spec r1 r) as [->|_], (Nat.eqb_spec r2 r) as [->|_];
    rewrite ?Hf; now apply Hw.
Qed.

Lemma own_createSession sessionId workingDirectory env w :
  Inv w -> own_controllers w ->
  own_controllers (fst (createSession sessionId workingDirectory env w)).
Proof.
  intros [_ _ Halloc] Hw r1 r2 H1 H2. cbn in *. unfold upd.
  destruct (Nat.eqb_spec r1 (session_next w)) as [->|N1],
           (Nat.eqb_spec r2 (session_next w)) as [->|N2]; cbn; intros E.
  - reflexivity.
  - assert (r2 < session_next w)%nat by lia.
    specialize (Halloc r2). lia.
  - assert (r1 < session_next w)%nat by lia.
    specialize (Halloc r1). lia.
  - apply Hw; auto; lia.
Qed.

Lemma own_start prompt options env w :
  Inv w -> own_controllers w ->
  own_controllers (fst (executeQuery_start prompt options env w)).
Proof.
  intros HI Hw. unfold executeQuery_start.
  destruct (JsMap.get _ (sessions w)) as [session|] eqn:E.
  - cbn [fst]. now repeat apply own_modify.
  - pose proof (own_createSession
                  (Some (or_string (Options.sessionId options)
                           (generateSessionId env)))
                  (Options.workingDirectory options) env w HI Hw) as Hw'.
    destruct (createSession _ _ env w) as [w' session].
    cbn [fst snd] in *. repeat apply own_modify; auto.
Qed.

Lemma own_step ev sys sys' :
  step ev sys = Some sys' -> Inv (world sys) ->
  own_controllers (world sys) -> own_controllers (world sys').
Proof.
  destruct ev as [sid wd env | prompt options env | call m | call
                 | call err | maxAge t | apiKey | ];
    cbn [step]; intros H HI Hw.
  - replace (world sys') with (fst (createSession sid wd env (world sys)))
      by (injection H as <-; reflexivity).
    now apply own_createSession.
  - pose proof (own_start prompt options env (world sys) HI Hw) as Hw'.
    destruct (executeQuery_start prompt options env (world sys)).
    injection H as <-. exact Hw'.
  - destruct (in_flight call sys); [|discriminate].
    injection H as <-. now apply own_modify.
  - destruct (in_flight call sys); [|discriminate].
    injection H as <-. now apply own_modify.
  - destruct (in_flight call sys); [|discriminate].
    injection H as <-. now apply own_modify.
  - replace (world sys') with (fst (cleanupSessions maxAge t (world sys)))
      by (injection H as <-; reflexivity).
    unfold own_controllers.
    destruct (cleanup_keeps_objects maxAge t (world sys)) as [-> ->].
    exact Hw.
  - injection H as <-. exact Hw.
  - replace (world sys') with (stop (world sys))
      by (injection H as <-; reflexivity).
    unfold own_controllers.
    destruct (stop_keeps_objects (world sys)) as [-> ->].
    exact Hw.
Qed.

Lemma reachable_own sys : reachable sys -> own_controllers (world sys).
Proof.
  induction 1 as [setting | ev sys sys' Hreach IH Hstep].
  - intros r1 r2 H1. cbn in H1. lia.
  - eapply own_step; eauto using reachable_Inv.
Qed.

(** X3.  In every state the service can reach, two different session
    objects have different cancellation handles, so firing the handle of
    one session leaves the signal of every other session as it was. *)
Theorem sessions_own_their_handles
  (sys : System) (Hreach : reachable sys) (r1 r2 : ref)
  (H1 : (r1 < session_next (world sys))%nat)
  (H2 : (r2 < session_next (world sys))%nat)
  (Hne : r1 <> r2) :
  let w := world sys in
  Session.abortController (session_at w r1)
  <> Session.abortController (session_at w r2) /\
  aborted (abort (Session.abortController (session_at w r1)) w)
    (Session.abortController (session_at w r2))
  = aborted w (Session.abortController (session_at w r2)).
Proof.
  cbn zeta.
  assert (Hc : Session.abortController (session_at (world sys) r1)
               <> Session.abortController (session_at (world sys) r2)).
  { intros E. apply Hne. now apply (reachable_own sys Hreach). }
  split; [exact Hc|].
  cbn. apply upd_other. congruence.
Qed.

Lemma sessions_own_their_handles_witness :
  let w := world idle_and_running_system in
  reachable idle_and_running_system /\
  (0 < session_next w)%nat /\ (1 < session_next w)%nat /\
  Session.abortController (session_at w 0%nat)
  <> Session.abortController (session_at w 1%nat).
Proof.
  cbn zeta.
  assert (Hreach : reachable idle_and_running_system).
  { apply (run_reachable idle_and_running (boot None));
      [apply reachable_boot | reflexivity]. }
  assert (H0 : (0 < session_next (world idle_and_running_system))%nat)
    by (vm_compute; lia).
  assert (H1 : (1 < session_next (world idle_and_running_system))%nat)
    by (vm_compute; lia).
  split; [exact Hreach|]. split; [exact H0|]. split; [exact H1|].
  apply (sessions_own_their_handles idle_and_running_system Hreach
           0%nat 1%nat H0 H1).
  discriminate.
Defined.

(** ** Shutdown *)

Lemma stop_fold_aborted (l : list (string * ref)) : forall w c,
  aborted
    (fold_left
       (fun (w' : World) (entry : string * ref) =>
          let session := session_at w' (snd entry) in
          if status_eqb (Session.status session) StRunning
          then abort (Session.abortController session) w'
          else w') l w) c
  = aborted w c
    || existsb
         (fun entry : string * ref =>
            status_eqb (Session.status (session_at w (snd entry))) StRunning
            && Nat.eqb c
                 (Session.abortController (session_at w (snd entry)))) l.
Proof.
  induction l as [|e l IH]; intros w c; cbn [fold_left existsb].
  - now rewrite orb_false_r.
  - cbn zeta.
    destruct (status_eqb (Session.status (session_at w (snd e))) StRunning).
    + rewrite IH. cbn [abort aborted session_at]. unfold upd at 1.
      rewrite andb_true_l.
      destruct (Nat.eqb c (Session.abortController (session_at w (snd e))));
        cbn; [now rewrite ?orb_true_r | reflexivity].
    + rewrite IH. reflexivity.
Qed.

(** X4.  In every state the service can reach, [stop()] leaves no id
    registered and changes no session object (a running session still
    reads ['running']); of the sessions that were registered it fires the
    cancellation handles of exactly those whose status was ['running'];
    and a handle that had fired before stays fired. *)
Theorem stop_aborts_exactly_running_sessions
  (sys : System) (Hreach : reachable sys) :
  let w := world sys in
  (forall id, getSession id (stop w) = None) /\
  (forall r, session_at (stop w) r = session_at w r) /\
  (forall k r, getSession k w = Some r ->
     aborted (stop w) (Session.abortController (session_at w r))
     = status_eqb (Session.status (session_at w r)) StRunning) /\
  (forall c, aborted w c = true -> aborted (stop w) c = true).
Proof.
  cbn zeta.
  pose proof (reachable_Inv sys Hreach) as [_ Hlive _].
  pose proof (reachable_own sys Hreach) as Hown.
  split; [reflexivity|]. split; [|split].
  - intros r. now destruct (stop_keeps_objects (world sys)) as [-> _].
  - intros k r Hget. apply get_in in Hget.
    destruct (Hlive k r Hget) as [Hr Hunfired].
    unfold stop. cbn zeta. cbn [set_sessions aborted].
    rewrite stop_fold_aborted, Hunfired, orb_false_l.
    destruct (status_eqb (Session.status (session_at (world sys) r)) StRunning)
      eqn:Hst.
    + apply existsb_exists. exists (k, r). split; [exact Hget|].
      cbn [snd]. now rewrite Hst, Nat.eqb_refl.
    + destruct (existsb _ _) eqn:Hex; [|reflexivity].
      apply existsb_exists in Hex. destruct Hex as ([k' r'] & Hin & Hp).
      cbn [snd] in Hp. apply andb_true_iff in Hp. destruct Hp as [Hrun Heq].
      apply Nat.eqb_eq in Heq.
      destruct (Hlive k' r' Hin) as [Hr' _].
      assert (r = r') by (apply Hown; auto). subst r'. congruence.
  - intros c Hc. unfold stop. cbn zeta. cbn [set_sessions aborted].
    now rewrite stop_fold_aborted, Hc.
Qed.

Lemma stop_aborts_exactly_running_sessions_witness :
  let w := world idle_and_running_system in
  reachable idle_and_running_system /\
  getSession "idle-one" w = Some 0%nat /\
  getSession "busy-one" w = Some 1%nat /\
  aborted (stop w) (Session.abortController (session_at w 0%nat)) = false /\
  aborted (stop w) (Session.abortController (session_at w 1%nat)) = true.
Proof.
  cbn zeta.
  assert (Hreach : reachable idle_and_running_system).
  { apply (run_reachable idle_and_running (boot None));
      [apply reachable_boot | reflexivity]. }
  split; [exact Hreach|]. split; [reflexivity|]. split; [reflexivity|].
  pose proof (stop_aborts_exactly_running_sessions
                idle_and_running_system Hreach) as H.
  cbn zeta in H. destruct H as (_ & _ & Hfire & _).
  split.
  - now rewrite (Hfire "idle-one" 0%nat eq_refl).
  - now rewrite (Hfire "busy-one" 1%nat eq_refl).
Defined.

(** ** How [executeQuery] comes to its session *)

Lemma start_reuses prompt options env w session :
  getSession (resolved_id options env) w = Some session ->
  executeQuery_start prompt options env w
  = (let w3 :=
       modify_session session (Session.set_lastActivityAt (now env))
         (modify_session session (Session.set_status StRunning) w) in
     (w3,
      {| call_sessionId := resolved_id options env;
         call_session := session;
         call_messages := [];
         call_queryOptions :=
           {| merged := Options.spread (defaultOptions w3) options;
              merged_abortController :=
                Session.abortController (session_at w3 session);
              merged_cwd := Session.workingDirectory (session_at w3 session) |};
         call_query :=
           {| sdk_prompt := prompt;
              sdk_abortController :=
                Session.abortController (session_at w3 session);
              sdk_options :=
                {| sdk_maxTurns :=
                     Some (or_number
                             (Options.maxTurns
                                (Options.spread (defaultOptions w3) options))
                             (JsNumber 10));
                   sdk_permissionMode := None;
                   sdk_allowedTools := None;
                   sdk_disallowedTools := None;
                   sdk_systemPrompt := None;
                   sdk_outputFormat := None;
                   sdk_cwd := None |} |} |})).
Proof.
  unfold getSession, resolved_id, executeQuery_start. now intros ->.
Qed.

(** X5.  A query on an id that is registered reuses the session object:
    no session is created and the registry is left as it is; the object
    keeps its id, start time, transcript, cancellation handle and working
    directory, and only its status (['running']) and [lastActivityAt] (the
    current time) are written.  The working directory in the merged
    options is the session's: [options.workingDirectory] is ignored. *)
Theorem executeQuery_reuses_registered_session
  (prompt : string) (options : QueryOptions) (env : Env) (w : World)
  (session : ref)
  (Hget : getSession (resolved_id options env) w = Some session) :
  let st := executeQuery_start prompt options env w in
  call_session (snd st) = session /\
  sessions (fst st) = sessions w /\
  session_next (fst st) = session_next w /\
  session_at (fst st) session
  = Session.set_lastActivityAt (now env)
      (Session.set_status StRunning (session_at w session)) /\
  (forall r, r <> session -> session_at (fst st) r = session_at w r) /\
  merged_cwd (call_queryOptions (snd st))
  = Session.workingDirectory (session_at w session) /\
  sdk_abortController (call_query (snd st))
  = Session.abortController (session_at w session).
Proof.
  cbn zeta. rewrite (start_reuses _ _ _ _ _ Hget). cbn.
  rewrite !upd_same. cbn. repeat split.
  intros r Hr. now rewrite !upd_other.
Qed.

Lemma executeQuery_reuses_registered_session_witness :
  let options :=
    {| Options.sessionId := Some "idle-one";
       Options.workingDirectory := Some "/elsewhere";
       Options.maxTurns := None; Options.systemPrompt := None;
       Options.allowedTools := None; Options.disallowedTools := None;
       Options.permissionMode := None; Options.outputFormat := None;
       Options.verbose := None |} in
  let env := {| now := 5000; random36 := "zzz" |} in
  let w := world idle_and_running_system in
  let st := executeQuery_start "again" options env w in
  getSession (resolved_id options env) w = Some 0%nat /\
  merged_cwd (call_queryOptions (snd st)) = Some "/repo" /\
  session_next (fst st) = session_next w.
Proof.
  cbn zeta. split; [reflexivity|].
  pose proof (executeQuery_reuses_registered_session "again"
                {| Options.sessionId := Some "idle-one";
                   Options.workingDirectory := Some "/elsewhere";
                   Options.maxTurns := None; Options.systemPrompt := None;
                   Options.allowedTools := None;
                   Options.disallowedTools := None;
                   Options.permissionMode := None;
                   Options.outputFormat := None;
                   Options.verbose := None |}
                {| now := 5000; random36 := "zzz" |}
                (world idle_and_running_system) 0%nat eq_refl) as H.
  cbn zeta in H. destruct H as (_ & _ & Hnext & _ & _ & Hcwd & _).
  split; [rewrite Hcwd; reflexivity | exact Hnext].
Defined.

(** With a clock that stands still, the operations over [Readings] are
    the ones over [Env]. *)
Lemma createSession_steady sessionId workingDirectory env w :
  createSession_at sessionId workingDirectory (steady env) w
  = createSession sessionId workingDirectory env w.
Proof. destruct env. reflexivity. Qed.

Lemma executeQuery_start_steady prompt options env w :
  executeQuery_start_at prompt options (steady env) w
  = executeQuery_start prompt options env w.
Proof. destruct env. reflexivity. Qed.

(** X6.  A query on an id that is not registered creates exactly one
    session: a new object, registered under the id after all earlier
    entries, with the id, the working directory of the options, an empty
    transcript, a new unfired cancellation handle and status ['running'];
    no other session object is touched.  Each time is a clock reading of
    its own: the start time is the one taken when the object is built, the
    last-activity time the one taken when the query marks the session
    running (the reading taken for it when the object was built is
    overwritten), and a generated id carries the reading taken in
    [generateSessionId]. *)
Theorem executeQuery_creates_unregistered_session
  (prompt : string) (options : QueryOptions) (rd : Readings) (w : World)
  (Hget : getSession (resolved_id options (id_env rd)) w = None) :
  let st := executeQuery_start_at prompt options rd w in
  call_session (snd st) = session_next w /\
  JsMap.keys (sessions (fst st))
  = (JsMap.keys (sessions w) ++ [resolved_id options (id_env rd)])%list /\
  session_at (fst st) (session_next w)
  = {| Session.id := resolved_id options (id_env rd);
       Session.startedAt := startedAt_now rd;
       Session.lastActivityAt := stamp_now rd;
       Session.messages := [];
       Session.abortController := controller_next w;
       Session.status := StRunning;
       Session.workingDirectory := Options.workingDirectory options |} /\
  aborted (fst st) (controller_next w) = false /\
  (forall r, r <> session_next w -> session_at (fst st) r = session_at w r).
Proof.
  cbn zeta. unfold getSession, resolved_id in *. unfold executeQuery_start_at.
  rewrite Hget. unfold createSession_at.
  rewrite or_string_settled by apply generateSessionId_nonempty.
  cbn -[JsMap.keys JsMap.set JsMap.get]. rewrite !upd_same.
  cbn -[JsMap.keys JsMap.set JsMap.get].
  split; [reflexivity|]. split; [|split; [|split]].
  - rewrite keys_set, get_set_same, keys_set, Hget. reflexivity.
  - reflexivity.
  - reflexivity.
  - intros r Hr. now rewrite !upd_other.
Qed.

Lemma executeQuery_creates_unregistered_session_witness :
  let options :=
    {| Options.sessionId := None;
       Options.workingDirectory := Some "/repo";
       Options.maxTurns := None; Options.systemPrompt := None;
       Options.allowedTools := None; Options.disallowedTools := None;
       Options.permissionMode := None; Options.outputFormat := None;
       Options.verbose := None |} in
  let rd :=
    {| id_now := 5000; id_random36 := "zzz"; startedAt_now := 5001;
       lastActivityAt_now := 5002; stamp_now := 5003 |} in
  let w := world idle_and_running_system in
  let st := executeQuery_start_at "review" options rd w in
  getSession (resolved_id options (id_env rd)) w = None /\
  JsMap.keys (sessions (fst st))
  = ["idle-one"; "busy-one"; "claude-5000-zzz"] /\
  Session.startedAt (session_at (fst st) (session_next w)) = 5001 /\
  Session.lastActivityAt (session_at (fst st) (session_next w)) = 5003.
Proof.
  cbn zeta. split; [reflexivity|].
  pose proof (executeQuery_creates_unregistered_session "review"
                {| Options.sessionId := None;
                   Options.workingDirectory := Some "/repo";
                   Options.maxTurns := None; Options.systemPrompt := None;
                   Options.allowedTools := None;
                   Options.disallowedTools := None;
                   Options.permissionMode := None;
                   Options.outputFormat := None;
                   Options.verbose := None |}
                {| id_now := 5000; id_random36 := "zzz";
                   startedAt_now := 5001; lastActivityAt_now := 5002;
                   stamp_now := 5003 |}
                (world idle_and_running_system) eq_refl) as H.
  cbn zeta in H. destruct H as (_ & Hkeys & Hobj & _).
  rewrite Hkeys, Hobj. repeat split.
Defined.

(** ** Whole invocations *)

(** What an uninterrupted invocation leaves behind, however its stream
    ends. *)
Lemma executeQuery_ends prompt options env stream w :
  let result := executeQuery prompt options env stream w in
  snd result
  = match ending stream with
    | None => Returned (emitted stream)
    | Some err => Threw err
    end /\
  sessions (fst result)
  = sessions (fst (executeQuery_start prompt options env w)) /\
  exists session,
    getSession (resolved_id options env) (fst result) = Some session /\
    Session.messages (session_at (fst result) session)
    = (transcript (resolved_id options env) w ++ emitted stream)%list /\
    Session.status (session_at (fst result) session)
    = match ending stream with
      | None => StCompleted
      | Some _ => StError
      end.
Proof.
  unfold executeQuery.
  pose proof (loop_sessions (emitted stream)
                (executeQuery_start prompt options env w)) as Hs.
  pose proof (loop_session (emitted stream)
                (executeQuery_start prompt options env w)) as Hc.
  pose proof (loop_messages (emitted stream)
                (executeQuery_start prompt options env w)) as Hm.
  pose proof (loop_transcript (emitted stream)
                (executeQuery_start prompt options env w)) as Ht.
  rewrite start_messages in Hm. rewrite start_transcript in Ht.
  destruct (executeQuery_loop (emitted stream)
              (executeQuery_start prompt options env w)) as [w' c'].
  cbn [fst snd] in *.
  destruct (ending stream) as [err|];
    cbn [executeQuery_return executeQuery_catch fst snd modify_session
         sessions session_at].
  - split; [reflexivity|]. split; [exact Hs|].
    exists (call_session c'). rewrite Hc, upd_same. repeat split.
    + unfold getSession. cbn [sessions modify_session]. rewrite Hs.
      apply start_registered.
    + exact Ht.
  - split; [now rewrite Hm|]. split; [exact Hs|].
    exists (call_session c'). rewrite Hc, upd_same. repeat split.
    + unfold getSession. cbn [sessions modify_session]. rewrite Hs.
      apply start_registered.
    + exact Ht.
Qed.

Lemma executeQuery_transcript prompt options env stream w :
  transcript (resolved_id options env)
    (fst (executeQuery prompt options env stream w))
  = (transcript (resolved_id options env) w ++ emitted stream)%list.
Proof.
  destruct (executeQuery_ends prompt options env stream w)
    as (_ & _ & session & Hget & Hm & _).
  unfold transcript at 1. now rewrite Hget.
Qed.

(** X7.  Two queries one after the other on the same id work on the same
    session object, whether the first ended normally or threw: afterwards
    the transcript under the id is the earlier transcript followed by the
    messages of the first call and then those of the second, while the
    second call hands its caller only its own messages (or re-throws its
    own error). *)
Theorem successive_queries_accumulate
  (prompt1 prompt2 : string) (options1 options2 : QueryOptions)
  (env1 env2 : Env) (stream1 stream2 : Stream) (w : World)
  (Hid : resolved_id options2 env2 = resolved_id options1 env1) :
  let id := resolved_id options1 env1 in
  let first := executeQuery prompt1 options1 env1 stream1 w in
  let second := executeQuery prompt2 options2 env2 stream2 (fst first) in
  getSession id (fst second) = getSession id (fst first) /\
  transcript id (fst second)
  = (transcript id w ++ emitted stream1 ++ emitted stream2)%list /\
  snd second
  = match ending stream2 with
    | None => Returned (emitted stream2)
    | Some err => Threw err
    end.
Proof.
  cbn zeta.
  destruct (executeQuery_ends prompt1 options1 env1 stream1 w)
    as (_ & _ & session & Hget1 & _).
  destruct (executeQuery_ends prompt2 options2 env2 stream2
              (fst (executeQuery prompt1 options1 env1 stream1 w)))
    as (Hout & Hs2 & _).
  split; [|split].
  - unfold getSession at 1. rewrite Hs2.
    rewrite <- Hid in Hget1.
    rewrite (start_reuses _ _ _ _ _ Hget1). reflexivity.
  - rewrite <- Hid at 1.
    rewrite executeQuery_transcript, Hid, executeQuery_transcript.
    now rewrite app_assoc.
  - exact Hout.
Qed.

Lemma successive_queries_accumulate_witness :
  let options :=
    {| Options.sessionId := Some "s"; Options.workingDirectory := None;
       Options.maxTurns := None; Options.systemPrompt := None;
       Options.allowedTools := None; Options.disallowedTools := None;
       Options.permissionMode := None; Options.outputFormat := None;
       Options.verbose := None |} in
  let env1 := {| now := 1000; random36 := "abc" |} in
  let env2 := {| now := 2000; random36 := "def" |} in
  let one := {| msg_type := "assistant"; msg_payload := "one" |} in
  let two := {| msg_type := "assistant"; msg_payload := "two" |} in
  let first :=
    executeQuery "try" options env1
      {| emitted := [one]; ending := Some "network down" |}
      (constructor None) in
  let second :=
    executeQuery "retry" options env2 {| emitted := [two]; ending := None |}
      (fst first) in
  resolved_id options env2 = resolved_id options env1 /\
  transcript "s" (fst second) = [one; two] /\
  snd second = Returned [two].
Proof.
  cbn zeta. split; [reflexivity|].
  pose proof (successive_queries_accumulate "try" "retry"
                {| Options.sessionId := Some "s";
                   Options.workingDirectory := None;
                   Options.maxTurns := None; Options.systemPrompt := None;
                   Options.allowedTools := None;
                   Options.disallowedTools := None;
                   Options.permissionMode := None;
                   Options.outputFormat := None;
                   Options.verbose := None |}
                {| Options.sessionId := Some "s";
                   Options.workingDirectory := None;
                   Options.maxTurns := None; Options.systemPrompt := None;
                   Options.allowedTools := None;
                   Options.disallowedTools := None;
                   Options.permissionMode := None;
                   Options.outputFormat := None;
                   Options.verbose := None |}
                {| now := 1000; random36 := "abc" |}
                {| now := 2000; random36 := "def" |}
                {| emitted := [{| msg_type := "assistant";
                                  msg_payload := "one" |}];
                   ending := Some "network down" |}
                {| emitted := [{| msg_type := "assistant";
                                  msg_payload := "two" |}];
                   ending := None |}
                (constructor None) eq_refl) as H.
  cbn zeta in H. destruct H as (_ & Ht & Hout).
  split; [exact Ht | exact Hout].
Defined.

(** The registry after a query has created its session. *)
Lemma executeQuery_creates_registered prompt options env w :
  JsMap.get (resolved_id options env) (sessions w) = None ->
  sessions (fst (executeQuery_start prompt options env w))
  = JsMap.set (resolved_id options env) (session_next w)
      (JsMap.set (resolved_id options env) (session_next w) (sessions w)).
Proof.
  intros Hget. unfold resolved_id in *. unfold executeQuery_start.
  rewrite Hget. unfold createSession.
  rewrite or_string_settled by apply generateSessionId_nonempty.
  reflexivity.
Qed.

(** ** Active sessions *)

Lemma active_length (f : ref -> ClaudeCodeSession) (l : list ref) :
  length
    (filter
       (fun r => status_eqb (Session.status (f r)) StRunning
                 || status_eqb (Session.status (f r)) StIdle) l)
  = (length (filter (fun s => status_eqb (Session.status s) StRunning)
               (map f l))
     + length (filter (fun s => status_eqb (Session.status s) StIdle)
                 (map f l)))%nat.
Proof.
  induction l as [|r l IH]; simpl; [reflexivity|].
  destruct (Session.status (f r)); simpl; lia.
Qed.

(** X8.  [getActiveSessions()] returns, in registry order, exactly the
    registered sessions whose status is ['running'] or ['idle']; their
    number is [activeSessions + idleSessions] of [getStatus()], so it
    never exceeds [totalSessions]. *)
Theorem getActiveSessions_are_running_or_idle
  (apiKey : option string) (w : World) :
  let report := snd (getStatus apiKey w) in
  getActiveSessions w
  = filter
      (fun r => match Session.status (session_at w r) with
                | StRunning | StIdle => true
                | _ => false
                end)
      (JsMap.values (sessions w)) /\
  (forall session,
     In session (getActiveSessions w)
     <-> In session (JsMap.values (sessions w))
         /\ (Session.status (session_at w session) = StRunning
             \/ Session.status (session_at w session) = StIdle)) /\
  length (getActiveSessions w)
  = (activeSessions report + idleSessions report)%nat /\
  (length (getActiveSessions w) <= totalSessions report)%nat.
Proof.
  cbn zeta.
  assert (Hlen : length (getActiveSessions w)
                 = (activeSessions (snd (getStatus apiKey w))
                    + idleSessions (snd (getStatus apiKey w)))%nat)
    by apply active_length.
  split; [|split; [|split]].
  - unfold getActiveSessions. apply filter_ext. intros r.
    now destruct (Session.status (session_at w r)).
  - intros session. unfold getActiveSessions. rewrite filter_In.
    destruct (Session.status (session_at w session)); cbn;
      intuition (try discriminate; auto).
  - exact Hlen.
  - rewrite Hlen. cbn [getStatus snd totalSessions activeSessions idleSessions].
    pose proof (count_by_status
                  (map (session_at w) (JsMap.values (sessions w)))) as H.
    cbn beta zeta in H. lia.
Qed.

(** X9.  Once an uninterrupted query has ended, normally or with an
    error, its session is still found by [getSession] under the id of the
    call, but it is not among the sessions [getActiveSessions()] returns:
    only sessions that are running, or were created and never queried,
    count as active. *)
Theorem finished_session_is_not_active
  (prompt : string) (options : QueryOptions) (env : Env)
  (stream : Stream) (w : World) :
  let result := executeQuery prompt options env stream w in
  exists session,
    getSession (resolved_id options env) (fst result) = Some session /\
    ~ In session (getActiveSessions (fst result)).
Proof.
  cbn zeta.
  destruct (executeQuery_ends prompt options env stream w)
    as (_ & _ & session & Hget & _ & Hst).
  exists session. split; [exact Hget|].
  unfold getActiveSessions. rewrite filter_In. intros [_ H].
  rewrite Hst in H. now destruct (ending stream).
Qed.

(** ** Clean-up and the size of the registry *)

Lemma wf_filter {V : Type} (p : string * V -> bool) (m : JsMap.t V) :
  JsMap.wf m -> JsMap.wf (filter p m).
Proof.
  unfold JsMap.wf, JsMap.keys.
  induction m as [|e m IH]; simpl; intros Hnd; [constructor|].
  inversion Hnd as [|? ? Hnin Hnd']; subst.
  destruct (p e); simpl; auto. constructor; auto.
  intros Hin. apply Hnin. apply in_map_iff in Hin.
  destruct Hin as (e' & He' & Hin). apply filter_In in Hin.
  rewrite <- He'. apply in_map. tauto.
Qed.

Lemma filter_absorbs {A : Type} (f g : A -> bool) (l : list A) :
  (forall x, f x = true -> g x = true) ->
  filter f (filter g l) = filter f l.
Proof.
  intros H. induction l as [|x l IH]; simpl; [reflexivity|].
  destruct (g x) eqn:Hg; simpl.
  - now rewrite IH.
  - destruct (f x) eqn:Hf; [|exact IH].
    apply H in Hf. congruence.
Qed.

Lemma filter_complement_nil {A : Type} (p : A -> bool) (l : list A) :
  filter p (filter (fun x => negb (p x)) l) = [].
Proof.
  induction l as [|x l IH]; simpl; [reflexivity|].
  destruct (p x) eqn:E; simpl; [exact IH | now rewrite E].
Qed.

Lemma expired_later maxAge t t' session :
  t <= t' -> expired maxAge t session = true ->
  expired maxAge t' session = true.
Proof.
  unfold expired. rewrite !andb_true_iff, !Z.ltb_lt. intuition lia.
Qed.

(** X10.  Cleaning up at some time and again at the same or a later time
    (with the same [maxAge]) leaves the registry as one clean-up at the
    later time does; in particular a second clean-up at the same time
    finds nothing to remove. *)
Theorem cleanupSessions_twice
  (maxAge : option Z) (t t' : Z) (w : World)
  (Hwf : JsMap.wf (sessions w)) (Hlater : t <= t') :
  let limit := match maxAge with Some v => v | None => 3600000 end in
  let once := fst (cleanupSessions maxAge t w) in
  sessions (fst (cleanupSessions maxAge t' once))
  = sessions (fst (cleanupSessions maxAge t' w)) /\
  sessionsToRemove limit t once = [].
Proof.
  cbn zeta.
  pose proof (cleanup_sessions maxAge t w Hwf) as Honce.
  assert (Hwf' : JsMap.wf (sessions (fst (cleanupSessions maxAge t w))))
    by (rewrite Honce; now apply wf_filter).
  destruct (cleanup_keeps_objects maxAge t w) as [Hobj _].
  split.
  - rewrite (cleanup_sessions maxAge t' _ Hwf'),
      (cleanup_sessions maxAge t' w Hwf), Hobj, Honce.
    apply filter_absorbs. intros e He.
    apply negb_true_iff. apply negb_true_iff in He.
    destruct (expired _ t (session_at w (snd e))) eqn:E; [|reflexivity].
    apply (expired_later _ t t') in E; [congruence | exact Hlater].
  - unfold sessionsToRemove. rewrite Hobj, Honce.
    now rewrite filter_complement_nil.
Qed.

Lemma cleanupSessions_twice_witness :
  let once := fst (cleanupSessions None 7200000 three_old_sessions) in
  JsMap.wf (sessions three_old_sessions) /\ 7200000 <= 7200001 /\
  JsMap.keys (sessions (fst (cleanupSessions None 7200001 once))) = ["c"] /\
  sessionsToRemove 3600000 7200000 once = [].
Proof.
  cbn zeta.
  assert (Hwf : JsMap.wf (sessions three_old_sessions)).
  { unfold JsMap.wf. cbn. repeat constructor; simpl; intuition discriminate. }
  assert (Hle : 7200000 <= 7200001) by lia.
  split; [exact Hwf|]. split; [exact Hle|].
  pose proof (cleanupSessions_twice None 7200000 7200001
                three_old_sessions Hwf Hle) as H.
  cbn zeta in H. destruct H as [Hsame Hnone].
  split; [rewrite Hsame; reflexivity | exact Hnone].
Defined.

(** X11.  Only [cleanupSessions] and [stop()] take sessions out of the
    registry: after any other step of the service (creating a session,
    starting a query, a message, the end or failure of a stream, a status
    report) every id that was registered is still registered. *)
Theorem only_cleanup_and_stop_unregister
  (ev : Event) (sys sys' : System) (k : string)
  (Hstep : step ev sys = Some sys')
  (Hev : removes ev = false)
  (Hk : getSession k (world sys) <> None) :
  getSession k (world sys') <> None.
Proof.
  unfold getSession in *.
  destruct ev as [sid wd env | prompt options env | call m | call
                 | call err | maxAge t | apiKey | ];
    cbn [step removes] in *; try discriminate.
  - injection Hstep as <-. cbn -[JsMap.get JsMap.set].
    destruct (String.eqb_spec k (or_string sid (generateSessionId env)))
      as [->|Hne].
    + rewrite get_set_same. discriminate.
    + now rewrite get_set_other.
  - destruct (JsMap.get (resolved_id options env) (sessions (world sys)))
      as [session|] eqn:E.
    + rewrite (start_reuses _ _ _ _ _ E) in Hstep.
      injection Hstep as <-. exact Hk.
    + pose proof (executeQuery_creates_registered prompt options env
                    (world sys) E) as Hs.
      destruct (executeQuery_start prompt options env (world sys)).
      injection Hstep as <-. cbn [world fst] in *. rewrite Hs.
      destruct (String.eqb_spec k (resolved_id options env)) as [->|Hne].
      * rewrite get_set_same. discriminate.
      * rewrite !get_set_other by assumption. exact Hk.
  - destruct (in_flight call sys); [|discriminate].
    injection Hstep as <-. exact Hk.
  - destruct (in_flight call sys); [|discriminate].
    injection Hstep as <-. exact Hk.
  - destruct (in_flight call sys); [|discriminate].
    injection Hstep as <-. exact Hk.
  - injection Hstep as <-. exact Hk.
Qed.

Lemma only_cleanup_and_stop_unregister_witness :
  step (EvThrow 0 "boom") idle_and_running_system = Some after_throw /\
  removes (EvThrow 0 "boom") = false /\
  getSession "busy-one" (world idle_and_running_system) <> None /\
  getSession "busy-one" (world after_throw) <> None.
Proof.
  assert (Hstep : step (EvThrow 0 "boom") idle_and_running_system
                  = Some after_throw) by (vm_compute; reflexivity).
  assert (Hk : getSession "busy-one" (world idle_and_running_system) <> None)
    by (vm_compute; discriminate).
  split; [exact Hstep|]. split; [reflexivity|]. split; [exact Hk|].
  exact (only_cleanup_and_stop_unregister (EvThrow 0 "boom")
           idle_and_running_system after_throw "busy-one"
           Hstep eq_refl Hk).
Defined.

(** * Configuration, start-up and the routes *)

Lemma configSchema_MAX_TURNS_range input :
  1 <= configSchema_MAX_TURNS input <= 50.
Proof. unfold configSchema_MAX_TURNS. destruct input; lia. Qed.

Lemma check_PERMISSION_MODE_spec (input : option string) :
  match check_PERMISSION_MODE input with
  | inl mode =>
      match input with
      | Some s => s = permissionMode_text mode
      | None => mode = PmAcceptEdits
      end
  | inr issue =>
      issue = PermissionModeInvalid /\
      exists s, input = Some s /\
        forall mode, s <> permissionMode_text mode
  end.
Proof.
  destruct input as [s|]; [|reflexivity]. unfold check_PERMISSION_MODE.
  destruct (String.eqb_spec s "default") as [->|N1]; [reflexivity|].
  destruct (String.eqb_spec s "acceptEdits") as [->|N2]; [reflexivity|].
  destruct (String.eqb_spec s "bypassPermissions") as [->|N3]; [reflexivity|].
  destruct (String.eqb_spec s "plan") as [->|N4]; [reflexivity|].
  split; [reflexivity|]. exists s. split; [reflexivity|].
  now intros [].
Qed.

(** X12.  [configSchema] accepts a configuration exactly when the
    credential is a non-empty string, [MAX_TURNS] is not [NaN] and
    [PERMISSION_MODE] is absent or names one of the four modes.  What it
    returns then has the credential unchanged, [MAX_TURNS] between 1 and
    50 (10 when absent) and the named mode (['acceptEdits'] when absent).
    When it rejects, it reports at least one issue, and one for every
    setting that is wrong, not only the first. *)
Theorem configSchema_parse_checks_every_setting (config : RawConfig) :
  match configSchema_parse config with
  | inl valid =>
      raw_ANTHROPIC_API_KEY config = Some (valid_ANTHROPIC_API_KEY valid) /\
      valid_ANTHROPIC_API_KEY valid <> "" /\
      1 <= valid_MAX_TURNS valid <= 50 /\
      match raw_MAX_TURNS config with
      | Some NaN => False
      | Some (Num n) => valid_MAX_TURNS valid = configSchema_MAX_TURNS (Some n)
      | None => valid_MAX_TURNS valid = 10
      end /\
      match raw_PERMISSION_MODE config with
      | Some s => s = permissionMode_text (valid_PERMISSION_MODE valid)
      | None => valid_PERMISSION_MODE valid = PmAcceptEdits
      end
  | inr issues =>
      issues <> [] /\
      (In ApiKeyRequired issues <-> raw_ANTHROPIC_API_KEY config = None) /\
      (In ApiKeyEmpty issues <-> raw_ANTHROPIC_API_KEY config = Some "") /\
      (In MaxTurnsNotANumber issues <-> raw_MAX_TURNS config = Some NaN) /\
      (In PermissionModeInvalid issues
       <-> exists s, raw_PERMISSION_MODE config = Some s /\
             forall mode, s <> permissionMode_text mode)
  end.
Proof.
  destruct config as [key turns mode]. unfold configSchema_parse.
  cbn [raw_ANTHROPIC_API_KEY raw_MAX_TURNS raw_PERMISSION_MODE].
  pose proof (check_PERMISSION_MODE_spec mode) as Hmode.
  destruct (check_PERMISSION_MODE mode) as [pm|issue].
  - assert (Hno : ~ exists s, mode = Some s /\
                      forall m, s <> permissionMode_text m).
    { intros (s & -> & Hs). now apply (Hs pm). }
    destruct key as [[|c s]|], turns as [[|n]|];
      cbn [check_ANTHROPIC_API_KEY check_MAX_TURNS issue_of app
           valid_ANTHROPIC_API_KEY valid_MAX_TURNS valid_PERMISSION_MODE];
      repeat match goal with
             | |- _ /\ _ => split
             | |- _ <-> _ => split
             end;
      try apply configSchema_MAX_TURNS_range;
      try reflexivity; try discriminate; try exact Hmode;
      cbn; intuition (try discriminate; try congruence).
  - destruct Hmode as [-> Hbad].
    destruct key as [[|c s]|], turns as [[|n]|];
      cbn [check_ANTHROPIC_API_KEY check_MAX_TURNS issue_of app];
      repeat match goal with
             | |- _ /\ _ => split
             | |- _ <-> _ => split
             end;
      try discriminate; try reflexivity;
      cbn; intuition (try discriminate; try congruence).
Qed.

Lemma configSchema_parse_accepted config valid :
  configSchema_parse config = inl valid ->
  raw_ANTHROPIC_API_KEY config = Some (valid_ANTHROPIC_API_KEY valid) /\
  valid_ANTHROPIC_API_KEY valid <> "" /\
  1 <= valid_MAX_TURNS valid <= 50.
Proof.
  destruct config as [key turns mode]. unfold configSchema_parse.
  cbn [raw_ANTHROPIC_API_KEY raw_MAX_TURNS raw_PERMISSION_MODE].
  destruct key as [[|c s]|], turns as [[|n]|],
    (check_PERMISSION_MODE mode) as [pm|issue];
    cbn [check_ANTHROPIC_API_KEY check_MAX_TURNS];
    intros [= <-]; cbn [valid_ANTHROPIC_API_KEY valid_MAX_TURNS];
    (split; [reflexivity|]; split; [discriminate|];
     apply configSchema_MAX_TURNS_range).
Qed.

Lemma start_fails_iff setting apiKey :
  ClaudeCodeService_start setting apiKey
  = inr "ANTHROPIC_API_KEY environment variable is not set"
  <-> apiKey = None \/ apiKey = Some "".
Proof.
  unfold ClaudeCodeService_start.
  destruct apiKey as [[|c s]|]; cbn; intuition (try discriminate; auto).
Qed.

(** X13.  When [init] succeeds, the SDK import succeeded, the
    configuration passed [configSchema], the validated [MAX_TURNS] lies
    between 1 and 50, and [process.env.ANTHROPIC_API_KEY] has been set to
    the configured credential; with that environment
    [ClaudeCodeService.start] does not throw, returns a service with an
    empty registry, and [getStatus()] reports the credential as
    configured.  [start] throws exactly when the credential is missing or
    empty. *)
Theorem init_then_start_succeeds
  (config : RawConfig) (sdkImports : bool)
  (valid : ValidatedConfig) (key : option string)
  (setting : option PluginConfig)
  (Hinit : init config sdkImports = inl (valid, key)) :
  sdkImports = true /\
  configSchema_parse config = inl valid /\
  key = raw_ANTHROPIC_API_KEY config /\
  1 <= valid_MAX_TURNS valid <= 50 /\
  (exists w,
     ClaudeCodeService_start setting key = inl w /\
     sessions w = JsMap.empty /\
     apiKeyConfigured (snd (getStatus key w)) = true
     /\ totalSessions (snd (getStatus key w)) = O) /\
  (forall apiKey,
     ClaudeCodeService_start setting apiKey
     = inr "ANTHROPIC_API_KEY environment variable is not set"
     <-> apiKey = None \/ apiKey = Some "").
Proof.
  unfold init in Hinit.
  pose proof (configSchema_parse_accepted config) as Hparse.
  destruct (configSchema_parse config) as [v|issues]; [|discriminate].
  destruct sdkImports; [|discriminate].
  injection Hinit as <- <-.
  destruct (Hparse v eq_refl) as (Hkey & Hne & Hrange).
  split; [reflexivity|]. split; [reflexivity|]. split; [now rewrite Hkey|].
  split; [exact Hrange|]. split; [|intros; apply start_fails_iff].
  exists (constructor setting).
  destruct (valid_ANTHROPIC_API_KEY v) as [|c s]; [congruence|].
  repeat split.
Qed.

Lemma init_then_start_succeeds_witness :
  let config :=
    {| raw_ANTHROPIC_API_KEY := Some "sk-test";
       raw_MAX_TURNS := Some (Num 80);
       raw_PERMISSION_MODE := Some "plan" |} in
  let valid :=
    {| valid_ANTHROPIC_API_KEY := "sk-test";
       valid_MAX_TURNS := 50;
       valid_PERMISSION_MODE := PmPlan |} in
  init config true = inl (valid, Some "sk-test") /\
  exists w, ClaudeCodeService_start None (Some "sk-test") = inl w
            /\ sessions w = JsMap.empty.
Proof.
  cbn zeta.
  assert (Hinit : init {| raw_ANTHROPIC_API_KEY := Some "sk-test";
                          raw_MAX_TURNS := Some (Num 80);
                          raw_PERMISSION_MODE := Some "plan" |} true
                  = inl ({| valid_ANTHROPIC_API_KEY := "sk-test";
                            valid_MAX_TURNS := 50;
                            valid_PERMISSION_MODE := PmPlan |},
                         Some "sk-test")) by reflexivity.
  split; [exact Hinit|].
  destruct (init_then_start_succeeds _ _ _ _ None Hinit)
    as (_ & _ & _ & _ & (w & Hstart & Hempty & _) & _).
  exists w. split; [exact Hstart | exact Hempty].
Defined.


(** Closes the case analyses on the answers of the routes. *)
Ltac route_case :=
  cbn; repeat split; intros; try discriminate; try congruence; try lia;
  eauto;
  repeat match goal with
         | H : exists _, _ |- _ => destruct H
         | H : _ /\ _ |- _ => destruct H
         end;
  congruence.

(** Closes the cases in which two facts about the request disagree. *)
Ltac route_clash :=
  repeat match goal with
         | H : exists _, _ |- _ => destruct H
         | H : _ /\ _ |- _ => destruct H
         | H : Some _ = Some _ |- _ => injection H as H; try subst
         end;
  unfold prompt_given in *;
  repeat match goal with
         | H : body_prompt ?b = Some _, Hp : context [body_prompt ?b] |- _ =>
             rewrite H in Hp; cbn in Hp
         end;
  congruence.

(** The stretch of [executeQuery] before [try] does not read the
    prompt. *)
Lemma start_ignores_prompt prompt prompt' options env w :
  fst (executeQuery_start prompt options env w)
  = fst (executeQuery_start prompt' options env w) /\
  call_session (snd (executeQuery_start prompt options env w))
  = call_session (snd (executeQuery_start prompt' options env w)).
Proof. start_cases w; split; reflexivity. Qed.

Lemma not_a_string_ends options env w :
  let result := executeQuery_not_a_string options env w in
  let id := resolved_id options env in
  snd result = Threw "TypeError: prompt.substring is not a function" /\
  exists session,
    getSession id (fst result) = Some session /\
    Session.status (session_at (fst result) session) = StError /\
    Session.messages (session_at (fst result) session) = transcript id w.
Proof.
  cbn zeta. unfold executeQuery_not_a_string.
  pose proof (start_registered "" options env w) as Hreg.
  pose proof (start_transcript "" options env w) as Htr.
  destruct (executeQuery_start "" options env w) as [w1 c].
  cbn [fst snd executeQuery_catch] in *.
  split; [reflexivity|].
  exists (call_session c). unfold getSession.
  cbn [modify_session sessions session_at]. rewrite upd_same.
  repeat split; [exact Hreg | exact Htr].
Qed.

(** X14.  The execute route answers 503 exactly when the runtime has no
    service and 400 exactly when the service is there and the body
    carries no prompt or a falsy one (the empty text, 0, [false],
    [null]); in both cases, and when the body is missing, no query runs
    and the service is left as it was.  It answers 200 exactly when the
    prompt is a non-empty text and the query's stream ends normally, and
    then the body holds exactly the messages of that call; every other
    case is a 500 whose message is the fixed text, never the error that
    was thrown.  A truthy prompt that is not a text (a number, [true], an
    object) is such a 500, and this one leaves a trace: the session of
    the options is registered, created if need be, in status ['error'],
    with the transcript it had. *)
Theorem route_execute_answers
  (runtime : option (option World)) (body : option ExecuteBody)
  (env : Env) (stream : Stream) :
  let result := route_execute runtime body env stream in
  let code := res_code (snd result) in
  let given :=
    match body with
    | Some b => prompt_given b
    | None => false
    end in
  (code = 503%nat <-> runtime = Some None) /\
  (code = 400%nat
   <-> exists w b, runtime = Some (Some w) /\ body = Some b
                   /\ prompt_given b = false) /\
  (code = 200%nat
   <-> exists w b c text,
         runtime = Some (Some w) /\ body = Some b
         /\ body_prompt b = Some (JsString (String c text))
         /\ ending stream = None) /\
  (code = 200%nat -> res_body (snd result) = BodySuccess (emitted stream)) /\
  (code <> 200%nat -> code <> 400%nat -> code <> 503%nat ->
   snd result
   = {| res_code := 500; res_body := BodyError "Failed to execute query" |}) /\
  (given = false ->
   fst result = match runtime with Some service => service | None => None end) /\
  (forall w b v,
     runtime = Some (Some w) -> body = Some b -> body_prompt b = Some v ->
     truthy v = true -> (forall text, v <> JsString text) ->
     let id := resolved_id (or_value (body_options b) Options.empty) env in
     code = 500%nat /\
     exists w' session,
       fst result = Some w' /\
       getSession id w' = Some session /\
       Session.status (session_at w' session) = StError /\
       Session.messages (session_at w' session) = transcript id w).
Proof.
  cbn zeta. unfold route_execute.
  destruct runtime as [[w|]|]; [|route_case|route_case].
  destruct body as [b|]; [|route_case].
  pose proof (not_a_string_ends (or_value (body_options b) Options.empty)
                env w) as (Hthrew & session & Hget & Hst & Hms).
  cbn zeta in Hthrew, Hget, Hst, Hms.
  destruct (prompt_given b) eqn:Hp; cbn [negb].
  2:{ cbn. repeat split; intros; try discriminate; eauto; route_clash. }
  assert (Hp' := Hp). unfold prompt_given in Hp'.
  destruct (body_prompt b) as [v|] eqn:Hv; [|discriminate].
  destruct (executeQuery_not_a_string
              (or_value (body_options b) Options.empty) env w)
    as [wn outn].
  cbn [fst snd] in *. subst outn.
  destruct v as [|n| | |flag|text|]; try discriminate.
  - cbn. repeat split; intros; try discriminate; try route_clash.
    exists wn, session. injection H as <-. injection H0 as <-. auto.
  - cbn. repeat split; intros; try discriminate; try route_clash.
    exists wn, session. injection H as <-. injection H0 as <-. auto.
  - destruct text as [|c text]; [discriminate|].
    pose proof (executeQuery_ends (String c text)
                  (or_value (body_options b) Options.empty)
                  env stream w) as (Hout & _).
    cbn zeta in Hout.
    destruct (executeQuery _ _ env stream w) as [w' out].
    cbn [snd] in Hout. subst out.
    destruct (ending stream) as [err|]; cbn;
      repeat split; intros; try discriminate; eauto 8; try route_clash.
    all: exfalso; injection H0 as <-; rewrite Hv in H1; injection H1 as <-;
      now apply (H3 (String c text)).
  - cbn. repeat split; intros; try discriminate; try route_clash.
    exists wn, session. injection H as <-. injection H0 as <-. auto.
Qed.

(** X15.  The status route answers 200 exactly when the runtime has the
    service, 503 exactly when it has none, and 500 only when the request
    carries no runtime; it never changes the service; and the counts in a
    200 body add up: [totalSessions] is the number of registered sessions
    and the sum of the four per-status counts. *)
Theorem route_status_answers
  (runtime : option (option World)) (apiKey : option string) :
  let result := route_status runtime apiKey in
  let code := res_code (snd result) in
  (code = 200%nat <-> exists w, runtime = Some (Some w)) /\
  (code = 503%nat <-> runtime = Some None) /\
  (code = 500%nat <-> runtime = None) /\
  fst result = match runtime with Some service => service | None => None end /\
  (forall report,
     res_body (snd result) = BodyActive report ->
     exists w,
       runtime = Some (Some w) /\
       report = snd (getStatus apiKey w) /\
       totalSessions report = JsMap.size (sessions w) /\
       totalSessions report
       = (idleSessions report + activeSessions report
          + completedSessions report + errorSessions report)%nat).
Proof.
  cbn zeta. unfold route_status.
  destruct runtime as [[w|]|]; [|route_case|route_case].
  cbn [getStatus fst snd res_code res_body].
  split; [split; [eauto | reflexivity]|].
  split; [split; discriminate|]. split; [split; discriminate|].
  split; [reflexivity|].
  intros report [= <-]. exists w. split; [reflexivity|].
  split; [reflexivity|]. cbn [totalSessions idleSessions activeSessions
                              completedSessions errorSessions].
  split.
  - unfold JsMap.size, JsMap.values. now rewrite !length_map.
  - apply count_by_status.
Qed.

(** ** The context provider *)


(** * Status and results with calls interleaved *)

Lemma start_creates_keeps prompt options env w :
  JsMap.get (resolved_id options env) (sessions w) = None ->
  forall r, r <> session_next w ->
    session_at (fst (executeQuery_start prompt options env w)) r
    = session_at w r.
Proof.
  intros Hget r Hr. unfold resolved_id in *. unfold executeQuery_start.
  rewrite Hget. cbn. now rewrite !upd_other.
Qed.

Lemma step_status ev sys sys' r :
  step ev sys = Some sys' ->
  (r < session_next (world sys))%nat ->
  Session.status (session_at (world sys') r)
  = Session.status (session_at (world sys) r)
  \/ Session.status (session_at (world sys') r) <> StIdle.
Proof.
  assert (Hmod : forall r0 f w,
            (forall s, Session.status (f s) = Session.status s
                       \/ Session.status (f s) <> StIdle) ->
            Session.status (session_at (modify_session r0 f w) r)
            = Session.status (session_at w r)
            \/ Session.status (session_at (modify_session r0 f w) r)
               <> StIdle).
  { intros r0 f w Hf. cbn. unfold upd.
    destruct (Nat.eqb_spec r r0) as [->|_]; [apply Hf | now left]. }
  destruct ev as [sid wd env | prompt options env | call m | call
                 | call err | maxAge t | apiKey | ];
    cbn [step]; intros H Hr.
  - injection H as <-. cbn. rewrite upd_other by lia. now left.
  - destruct (JsMap.get (resolved_id options env) (sessions (world sys)))
      as [session|] eqn:E.
    + rewrite (start_reuses _ _ _ _ _ E) in H. cbn zeta in H.
      injection H as <-. cbn [world modify_session session_at].
      destruct (Nat.eqb_spec r session) as [->|Hne].
      * right. rewrite !upd_same. cbn. discriminate.
      * left. now rewrite !upd_other.
    + pose proof (start_creates_keeps prompt options env (world sys) E)
        as Hother.
      destruct (executeQuery_start prompt options env (world sys)).
      injection H as <-. cbn [world fst] in *.
      left. rewrite Hother by lia. reflexivity.
  - destruct (in_flight call sys); [|discriminate].
    injection H as <-. apply Hmod. intros s. now left.
  - destruct (in_flight call sys); [|discriminate].
    injection H as <-. apply Hmod. intros s. right. discriminate.
  - destruct (in_flight call sys); [|discriminate].
    injection H as <-. apply Hmod. intros s. right. discriminate.
  - replace (world sys') with (fst (cleanupSessions maxAge t (world sys)))
      by (injection H as <-; reflexivity).
    destruct (cleanup_keeps_objects maxAge t (world sys)) as [-> _].
    now left.
  - injection H as <-. now left.
  - replace (world sys') with (stop (world sys))
      by (injection H as <-; reflexivity).
    destruct (stop_keeps_objects (world sys)) as [-> _]. now left.
Qed.

(** X17.  A session never returns to ['idle']: once a query has started
    on it, whatever the service does afterwards, with calls interleaved
    in any way, its status is ['running'], ['completed'] or ['error']. *)
Theorem session_never_returns_to_idle
  (evs : list Event) (sys sys' : System) (r : ref)
  (Hrun : run evs sys = Some sys')
  (Hr : (r < session_next (world sys))%nat)
  (Hst : Session.status (session_at (world sys) r) <> StIdle) :
  Session.status (session_at (world sys') r) <> StIdle.
Proof.
  revert sys Hrun Hr Hst.
  induction evs as [|ev evs IH]; intros sys Hrun Hr Hst; simpl in Hrun.
  - now injection Hrun as <-.
  - destruct (step ev sys) as [sys1|] eqn:E; [|discriminate].
    destruct (step_grown ev sys sys1 E) as [Hn _].
    apply (IH sys1 Hrun); [lia|].
    destruct (step_status ev sys sys1 r E Hr) as [Hsame|Hne];
      [now rewrite Hsame | exact Hne].
Qed.

Lemma session_never_returns_to_idle_witness :
  run shutdown_while_running idle_and_running_system = Some after_shutdown /\
  (1 < session_next (world idle_and_running_system))%nat /\
  Session.status (session_at (world idle_and_running_system) 1%nat)
  <> StIdle /\
  Session.status (session_at (world after_shutdown) 1%nat) <> StIdle.
Proof.
  assert (Hrun : run shutdown_while_running idle_and_running_system
                 = Some after_shutdown) by (vm_compute; reflexivity).
  assert (Hr : (1 < session_next (world idle_and_running_system))%nat)
    by (vm_compute; lia).
  assert (Hst : Session.status
                  (session_at (world idle_and_running_system) 1%nat)
                <> StIdle) by (vm_compute; discriminate).
  split; [exact Hrun|]. split; [exact Hr|]. split; [exact Hst|].
  exact (session_never_returns_to_idle shutdown_while_running
           idle_and_running_system after_shutdown 1%nat Hrun Hr Hst).
Defined.

Lemma nth_set_call_same i cs l :
  (i < length l)%nat -> nth_error (set_call i cs l) i = Some cs.
Proof.
  revert i. induction l as [|x l IH]; intros [|i] H; simpl in *;
    try lia; [reflexivity|]. apply IH. lia.
Qed.

Lemma nth_set_call_other i j cs l :
  i <> j -> nth_error (set_call j cs l) i = nth_error l i.
Proof.
  revert i j. induction l as [|x l IH]; intros [|i] [|j] H; simpl;
    try reflexivity; try congruence. apply IH. congruence.
Qed.

Lemma length_set_call i cs l : length (set_call i cs l) = length l.
Proof.
  revert i. induction l as [|x l IH]; intros [|i]; simpl; auto.
Qed.

Lemma in_flight_nth i sys c :
  in_flight i sys = Some c ->
  nth_error (calls sys) i = Some (InFlight c) /\ (i < length (calls sys))%nat.
Proof.
  unfold in_flight. intros H.
  destruct (nth_error (calls sys) i) as [[c'|o]|] eqn:E; try discriminate.
  injection H as ->. split; [reflexivity|].
  apply nth_error_Some. congruence.
Qed.

Lemma run_snoc evs ev : forall sys,
  run (evs ++ [ev]) sys
  = match run evs sys with
    | Some sys1 => step ev sys1
    | None => None
    end.
Proof.
  induction evs as [|e evs IH]; intros sys; simpl.
  - now destruct (step ev sys).
  - destruct (step e sys); [apply IH | reflexivity].
Qed.

Lemma delivered_app i evs evs' :
  delivered i (evs ++ evs') = (delivered i evs ++ delivered i evs')%list.
Proof.
  induction evs as [|e evs IH]; simpl; [reflexivity|].
  destruct e; try exact IH.
  destruct (Nat.eqb call i); simpl; now rewrite IH.
Qed.

(** X18.  However the calls of the service interleave, also several on
    one session, the list an invocation has collected, and the list it
    returns when its stream ends, holds exactly the messages delivered to
    that invocation, in order: messages of other calls that went into the
    same transcript never appear in it.  No message is ever delivered to
    an invocation that has not started. *)
Theorem call_collects_its_own_messages
  (setting : option PluginConfig) (evs : list Event) (sys : System)
  (Hrun : run evs (boot setting) = Some sys) :
  (forall i cs, nth_error (calls sys) i = Some cs ->
     collected cs (delivered i evs)) /\
  (forall i, (length (calls sys) <= i)%nat -> delivered i evs = []).
Proof.
  revert sys Hrun.
  induction evs as [|ev evs IH] using rev_ind; intros sys' Hrun.
  - injection Hrun as <-. split; [|reflexivity].
    intros [|i] cs H; discriminate.
  - rewrite run_snoc in Hrun.
    destruct (run evs (boot setting)) as [sys|]; [|discriminate].
    destruct (IH sys eq_refl) as [Hcol Hnone]. clear IH.
    assert (Hkeep : forall i,
              delivered i [ev] = [] ->
              delivered i (evs ++ [ev]) = delivered i evs).
    { intros i H. now rewrite delivered_app, H, app_nil_r. }
    destruct ev as [sid wd env | prompt options env | call m | call
                   | call err | maxAge t | apiKey | ];
      cbn [step] in Hrun.
    + injection Hrun as <-. cbn [calls].
      split; intros i; [intros cs H|intros H]; rewrite Hkeep; auto.
    + pose proof (start_messages prompt options env (world sys)) as Hm.
      destruct (executeQuery_start prompt options env (world sys)) as [w c].
      injection Hrun as <-. cbn [calls snd] in *.
      split.
      * intros i cs H. rewrite Hkeep by reflexivity.
        destruct (Nat.lt_ge_cases i (length (calls sys))) as [Hlt|Hge].
        -- rewrite nth_error_app1 in H by assumption. auto.
        -- rewrite nth_error_app2 in H by assumption.
           destruct (i - length (calls sys))%nat as [|n] eqn:En;
             [|destruct n; discriminate].
           injection H as <-. cbn. rewrite Hm. symmetry. now apply Hnone.
      * intros i H. rewrite length_app in H. cbn in H.
        rewrite Hkeep by reflexivity. apply Hnone. lia.
    + destruct (in_flight call sys) as [c|] eqn:E; [|discriminate].
      apply in_flight_nth in E. destruct E as [Hc Hlt].
      injection Hrun as <-. cbn [calls].
      split.
      * intros i cs H. rewrite delivered_app. cbn [delivered].
        destruct (Nat.eqb_spec call i) as [->|Hne].
        -- rewrite nth_set_call_same in H by assumption.
           injection H as <-. cbn. now rewrite (Hcol i _ Hc).
        -- rewrite nth_set_call_other in H by congruence.
           rewrite app_nil_r. auto.
      * intros i H. rewrite length_set_call in H.
        rewrite delivered_app. cbn [delivered].
        destruct (Nat.eqb_spec call i) as [->|Hne]; [lia|].
        rewrite app_nil_r. auto.
    + destruct (in_flight call sys) as [c|] eqn:E; [|discriminate].
      apply in_flight_nth in E. destruct E as [Hc Hlt].
      injection Hrun as <-. cbn [calls].
      split.
      * intros i cs H. rewrite Hkeep by reflexivity.
        destruct (Nat.eqb_spec call i) as [->|Hne].
        -- rewrite nth_set_call_same in H by assumption.
           injection H as <-. cbn. apply (Hcol i _ Hc).
        -- rewrite nth_set_call_other in H by congruence. auto.
      * intros i H. rewrite length_set_call in H.
        rewrite Hkeep by reflexivity. auto.
    + destruct (in_flight call sys) as [c|] eqn:E; [|discriminate].
      apply in_flight_nth in E. destruct E as [Hc Hlt].
      injection Hrun as <-. cbn [calls].
      split.
      * intros i cs H. rewrite Hkeep by reflexivity.
        destruct (Nat.eqb_spec call i) as [->|Hne].
        -- rewrite nth_set_call_same in H by assumption.
           injection H as <-. exact I.
        -- rewrite nth_set_call_other in H by congruence. auto.
      * intros i H. rewrite length_set_call in H.
        rewrite Hkeep by reflexivity. auto.
    + injection Hrun as <-. cbn [calls].
      split; intros i; [intros cs H|intros H]; rewrite Hkeep; auto.
    + injection Hrun as <-. cbn [calls].
      split; intros i; [intros cs H|intros H]; rewrite Hkeep; auto.
    + injection Hrun as <-. cbn [calls].
      split; intros i; [intros cs H|intros H]; rewrite Hkeep; auto.
Qed.

Lemma call_collects_its_own_messages_witness :
  let a1 := {| msg_type := "assistant"; msg_payload := "a1" |} in
  let b1 := {| msg_type := "assistant"; msg_payload := "b1" |} in
  let a2 := {| msg_type := "assistant"; msg_payload := "a2" |} in
  run two_calls_one_session (boot None) = Some two_calls_one_session_system /\
  nth_error (calls two_calls_one_session_system) 0
  = Some (Finished (Returned [a1; a2])) /\
  transcript "shared" (world two_calls_one_session_system) = [a1; b1; a2] /\
  collected (Finished (Returned [a1; a2])) (delivered 0 two_calls_one_session).
Proof.
  cbn zeta.
  assert (Hrun : run two_calls_one_session (boot None)
                 = Some two_calls_one_session_system)
    by (vm_compute; reflexivity).
  assert (Hcall : nth_error (calls two_calls_one_session_system) 0
                  = Some (Finished (Returned
                       [{| msg_type := "assistant"; msg_payload := "a1" |};
                        {| msg_type := "assistant"; msg_payload := "a2" |}])))
    by (vm_compute; reflexivity).
  split; [exact Hrun|]. split; [exact Hcall|].
  split; [vm_compute; reflexivity|].
  exact (proj1 (call_collects_its_own_messages None two_calls_one_session
                  two_calls_one_session_system Hrun) 0%nat _ Hcall).
Defined.

(** ** C2: a stream that throws *)








(** The id of a cancelled call taken again.  As above, but before the
    stream throws a second call is made on the id ["s"]: it finds no
    session and registers a new object.  When the first call ends in its
    [catch] block, [getSession("s")] finds that new object, running and
    with an empty transcript, not the session of the cancelled call. *)
Lemma cancelled_call_id_registered_again :
  let options :=
    {| Options.sessionId := Some "s"; Options.workingDirectory := None;
       Options.maxTurns := None; Options.systemPrompt := None;
       Options.allowedTools := None; Options.disallowedTools := None;
       Options.permissionMode := None; Options.outputFormat := None;
       Options.verbose := None |} in
  let env := {| now := 1000; random36 := "abc" |} in
  let message := {| msg_type := "assistant"; msg_payload := "partial" |} in
  exists sys,
    run [EvExecuteQuery "fix the bug" options env; EvMessage 0 message;
         EvStop; EvExecuteQuery "try again" options env;
         EvThrow 0 "AbortError"] (boot None) = Some sys /\
    Session.status (session_at (world sys) 0%nat) = StError /\
    Session.messages (session_at (world sys) 0%nat) = [message] /\
    getSession "s" (world sys) = Some 1%nat /\
    Session.status (session_at (world sys) 1%nat) = StRunning /\
    Session.messages (session_at (world sys) 1%nat) = [].
Proof. vm_compute. eexists. repeat split. Qed.

